(** * Quote distribution pipeline: codec, circuit breaker, batch fetcher,
      subscription registry, broadcaster and cache integration.

    A shallow embedding of the Python services of the BSE exchange
    back end, and the properties of their specification. *)

From Stdlib Require Import ZArith QArith Qcanon Lia.
From stdpp Require Import gmap strings list fin_maps.

Local Open Scope string_scope.
Local Open Scope Z_scope.

(* ===================================================================== *)
(** * Python values and insertion-ordered dictionaries *)
(* ===================================================================== *)

Module Py.

(** The values a quote field can hold.  Floats are idealised as exact
    rationals (no NaN, no infinity, no rounding of the representation);
    a field keeps the type [StockQuote] gives it, so [==] between two
    values of a field is structural equality. *)
Inductive value :=
| VNone
| VBool (b : bool)
| VInt (z : Z)
| VFloat (f : Qc)
| VStr (s : string).

#[global] Instance value_eq_dec : EqDecision value.
Proof. solve_decision. Defined.

(** Round half to even, the rounding of Python 3's [round]. *)
Definition round_half_even (q : Q) : Z :=
  let n := Qnum q in
  let d := Z.pos (Qden q) in
  let fl := n / d in
  match Z.compare (2 * (n mod d)) d with
  | Lt => fl
  | Gt => fl + 1
  | Eq => if Z.even fl then fl else fl + 1
  end.

(** [round(x, ndigits)] on a float, for [ndigits >= 0]. *)
Definition round (x : Qc) (ndigits : nat) : Qc :=
  let scale := 10 ^ Z.of_nat ndigits in
  Q2Qc (Qmake (round_half_even (Qmult (this x) (inject_Z scale)))
              (Z.to_pos scale)).

(** A [dict] with string keys: its items in insertion order.  A
    well-formed dictionary has pairwise distinct keys ([wf]). *)
Definition dict := list (string * value).

Definition keys (d : dict) : list string := d.*1.

Definition wf (d : dict) : Prop := NoDup (keys d).

(** [d.get(k)], with [None] standing for Python's missing-key default. *)
Fixpoint get (d : dict) (k : string) : option value :=
  match d with
  | [] => None
  | (k', v) :: d' => if decide (k = k') then Some v else get d' k
  end.

(** [d[k] = v]: overwrite in place, or append a new item. *)
Fixpoint set (d : dict) (k : string) (v : value) : dict :=
  match d with
  | [] => [(k, v)]
  | (k', v') :: d' =>
      if decide (k = k') then (k', v) :: d' else (k', v') :: set d' k v
  end.

(** [l[:n]] *)
Definition slice_to {A} (l : list A) (n : Z) : list A :=
  if decide (0 ≤ n) then take (Z.to_nat n) l
  else take (Z.to_nat (Z.of_nat (length l) + n)) l.

(** An optional write: [d[k] = v] when the item is there. *)
Definition put_opt (d : dict) (o : option (string * value)) : dict :=
  match o with Some (k, v) => set d k v | None => d end.

(** [d1 == d2]: the same keys with equal values, whatever the order. *)
Definition dict_eq (d1 d2 : dict) : Prop := ∀ k, get d1 k = get d2 k.

(** [not d] is false exactly for a dictionary with some item. *)
Definition truthy (d : dict) : bool :=
  match d with [] => false | _ => true end.

End Py.

(* ===================================================================== *)
(** * models/stock_quote.py *)
(* ===================================================================== *)

Module Quote.
Import Py.

Record StockQuote := {
  symbol : string;
  company_name : string;
  current_price : Qc;
  change : Qc;
  percent_change : Qc;
  volume : Z;
  timestamp : string;        (* [timestamp.isoformat()] *)
  bid_price : option Qc;
  ask_price : option Qc;
  high : option Qc;
  low : option Qc
}.

Definition opt_float (o : option Qc) : value :=
  match o with Some f => VFloat f | None => VNone end.

Definition to_dict (q : StockQuote) : dict :=
  [ ("symbol", VStr (symbol q));
    ("company_name", VStr (company_name q));
    ("current_price", VFloat (current_price q));
    ("change", VFloat (change q));
    ("percent_change", VFloat (percent_change q));
    ("volume", VInt (volume q));
    ("timestamp", VStr (timestamp q));
    ("bid_price", opt_float (bid_price q));
    ("ask_price", opt_float (ask_price q));
    ("high", opt_float (high q));
    ("low", opt_float (low q)) ].

End Quote.

(* ===================================================================== *)
(** * services/compression_service.py *)
(* ===================================================================== *)

Module Codec.
Import Py Quote.

(** [Union[Dict, StockQuote]] *)
Inductive stock_data :=
| FromDict (d : dict)
| FromQuote (q : StockQuote).

(** [data.to_dict() if isinstance(data, StockQuote) else data.copy()] *)
Definition as_dict (data : stock_data) : dict :=
  match data with
  | FromQuote q => to_dict q
  | FromDict d => d
  end.

Record stats := {
  total_compressions : Z;
  total_original_size : Z;
  total_compressed_size : Z;
  delta_updates : Z;
  full_updates : Z
}.

Record CompressionService := {
  previous_data_cache : gmap string dict;   (* symbol -> last data *)
  compression_stats : stats
}.

Definition init : CompressionService :=
  {| previous_data_cache := ∅;
     compression_stats := Build_stats 0 0 0 0 0 |}.

(** An update message: the keys [symbol], [type], [timestamp] and, when
    present, [changes] (delta) or [data] (full). *)
Record update := {
  u_symbol : string;
  u_type : string;
  u_timestamp : value;
  u_changes : option dict;
  u_data : option dict
}.

#[global] Instance update_eq_dec : EqDecision update.
Proof. solve_decision. Defined.

(** One round of the loop [for key, new_value in new_dict.items()] of
    [create_delta_update]; the loop state is [delta['timestamp']] and
    [delta['changes']]. *)
Definition delta_step (previous_data : dict) (delta : value * dict)
    (item : string * value) : value * dict :=
  let '(key, new_value) := item in
  if decide (key = "timestamp") then (new_value, delta.2)
  else
    let old_value := default VNone (get previous_data key) in
    if decide (old_value ≠ new_value)
    then (delta.1, set delta.2 key new_value)
    else delta.

Definition bump_delta (s : stats) : stats :=
  {| total_compressions := total_compressions s;
     total_original_size := total_original_size s;
     total_compressed_size := total_compressed_size s;
     delta_updates := delta_updates s + 1;
     full_updates := full_updates s |}.

Definition bump_full (s : stats) : stats :=
  {| total_compressions := total_compressions s;
     total_original_size := total_original_size s;
     total_compressed_size := total_compressed_size s;
     delta_updates := delta_updates s;
     full_updates := full_updates s + 1 |}.

(** [create_delta_update(symbol, new_data)]; [now] is the value of
    [datetime.now().isoformat()]. *)
Definition create_delta_update (now : string) (self : CompressionService)
    (symbol : string) (new_data : stock_data) : update * CompressionService :=
  let new_dict := as_dict new_data in
  let previous_data := default [] (previous_data_cache self !! symbol) in
  let timestamp0 := default (VStr now) (get new_dict "timestamp") in
  let delta := foldl (delta_step previous_data) (timestamp0, []) new_dict in
  let cache := <[symbol := new_dict]> (previous_data_cache self) in
  if truthy delta.2 then
    ({| u_symbol := symbol; u_type := "delta"; u_timestamp := delta.1;
        u_changes := Some delta.2; u_data := None |},
     {| previous_data_cache := cache;
        compression_stats := bump_delta (compression_stats self) |})
  else
    ({| u_symbol := symbol; u_type := "heartbeat"; u_timestamp := timestamp0;
        u_changes := None; u_data := None |},
     {| previous_data_cache := cache;
        compression_stats := compression_stats self |}).

(** [create_full_update(symbol, data)] *)
Definition create_full_update (now : string) (self : CompressionService)
    (symbol : string) (data : stock_data) : update * CompressionService :=
  let data_dict := as_dict data in
  ({| u_symbol := symbol; u_type := "full";
      u_timestamp := default (VStr now) (get data_dict "timestamp");
      u_changes := None; u_data := Some data_dict |},
   {| previous_data_cache := <[symbol := data_dict]> (previous_data_cache self);
      compression_stats := bump_full (compression_stats self) |}).

(** The statistics part of [compress_stock_data]: one more compression
    of [original_size] bytes into [compressed_size] bytes. *)
Definition count_compression (self : CompressionService)
    (original_size compressed_size : Z) : CompressionService :=
  let s := compression_stats self in
  {| previous_data_cache := previous_data_cache self;
     compression_stats :=
       {| total_compressions := total_compressions s + 1;
          total_original_size := total_original_size s + original_size;
          total_compressed_size := total_compressed_size s + compressed_size;
          delta_updates := delta_updates s;
          full_updates := full_updates s |} |}.

(** A literal [dict] from field names to field names, and
    [table.get(key, key)]. *)
Fixpoint table_get (table : list (string * string)) (key dflt : string)
    : string :=
  match table with
  | [] => dflt
  | (k, v) :: table' => if decide (key = k) then v else table_get table' key dflt
  end.

Definition field_mapping : list (string * string) :=
  [ ("symbol", "s"); ("company_name", "cn"); ("current_price", "cp");
    ("change", "c"); ("percent_change", "pc"); ("volume", "v");
    ("timestamp", "t"); ("bid_price", "bp"); ("ask_price", "ap");
    ("high", "h"); ("low", "l") ].

Definition reverse_mapping : list (string * string) :=
  [ ("s", "symbol"); ("cn", "company_name"); ("cp", "current_price");
    ("c", "change"); ("pc", "percent_change"); ("v", "volume");
    ("t", "timestamp"); ("bp", "bid_price"); ("ap", "ask_price");
    ("h", "high"); ("l", "low") ].

Definition price_fields : list string :=
  [ "current_price"; "change"; "bid_price"; "ask_price"; "high"; "low" ].

(** One round of the loop of [_optimize_data_structure]. *)
Definition optimize_step (optimized : dict) (item : string * value) : dict :=
  let '(key, value) := item in
  let short_key := table_get field_mapping key key in
  match value with
  | VFloat f =>
      if bool_decide (key ∈ price_fields)
      then set optimized short_key (VFloat (round f 2))
      else if decide (key = "percent_change")
      then set optimized short_key (VFloat (round f 3))
      else set optimized short_key value
  | VNone => optimized
  | _ => set optimized short_key value
  end.

Definition _optimize_data_structure (data : dict) : dict :=
  foldl optimize_step [] data.

(** One round of the loop of [_restore_data_structure]. *)
Definition restore_step (restored : dict) (item : string * value) : dict :=
  let '(key, value) := item in
  let original_key := table_get reverse_mapping key key in
  set restored original_key value.

Definition _restore_data_structure (optimized_data : dict) : dict :=
  foldl restore_step [] optimized_data.

(** What [_optimize_data_structure] stores for the value of a field:
    nothing for [None], the rounded float for a price or a percentage. *)
Definition opt_value (key : string) (value : value) : option Py.value :=
  match value with
  | VNone => None
  | VFloat f =>
      Some (VFloat (if bool_decide (key ∈ price_fields) then round f 2
                    else if decide (key = "percent_change") then round f 3
                    else f))
  | _ => Some value
  end.

Definition short_key (key : string) : string :=
  table_get field_mapping key key.

Definition original_key (key : string) : string :=
  table_get reverse_mapping key key.

Definition opt_entry (item : string * value) : option (string * value) :=
  (λ v, (short_key item.1, v)) <$> opt_value item.1 item.2.

Definition restore_entry (item : string * value) : option (string * value) :=
  Some (original_key item.1, item.2).

(** The short aliases of the field table. *)
Definition aliases : list string := field_mapping.*2.

(** The claim of the specification, in its words: restoring the
    optimised form gives back the original map. *)
Definition lossless_round_trip (Q : dict) : Prop :=
  dict_eq (_restore_data_structure (_optimize_data_structure Q)) Q.

(** What one round of the delta loop writes to [delta['changes']]. *)
Definition delta_entry (previous_data : dict) (item : string * value)
    : option (string * value) :=
  if decide (item.1 = "timestamp") then None
  else if decide (default VNone (get previous_data item.1) ≠ item.2)
       then Some item else None.

(** The comparison the delta loop makes: field [k] of the new data, not
    the timestamp, holds [v], and the baseline holds something else (a
    field the baseline lacks reads as [None]). *)
Definition field_changed (B Q : dict) (k : string) (v : value) : Prop :=
  k ≠ "timestamp" ∧ get Q k = Some v ∧ default VNone (get B k) ≠ v.

(** [d.get(k)]: the value of a field, [None] when it is absent. *)
Definition field_of (d : dict) (k : string) : value :=
  default VNone (get d k).

(** The delta claim of the specification, in its words: [Q] equals [B]
    on every field other than the timestamp; the changes are exactly the
    fields on which they differ. *)
Definition equal_off_timestamp (Q B : dict) : Prop :=
  ∀ k, k ≠ "timestamp" → field_of Q k = field_of B k.

Definition exactly_the_differing_fields (changes Q B : dict) : Prop :=
  (∀ k, is_Some (get changes k) ↔
        k ≠ "timestamp" ∧ field_of Q k ≠ field_of B k) ∧
  (∀ k v, get changes k = Some v → get Q k = Some v).

Definition baseline (self : CompressionService) (symbol : string) : dict :=
  default [] (previous_data_cache self !! symbol).

Definition delta_claim (now : string) (self : CompressionService)
    (S : string) (new_data : stock_data) : Prop :=
  let Q := as_dict new_data in
  let B := baseline self S in
  let r := create_delta_update now self S new_data in
  (equal_off_timestamp Q B →
     u_type r.1 = "heartbeat" ∧ u_changes r.1 = None ∧ u_data r.1 = None) ∧
  (¬ equal_off_timestamp Q B →
     u_type r.1 = "delta" ∧ u_data r.1 = None ∧
     ∃ c, u_changes r.1 = Some c ∧ exactly_the_differing_fields c Q B) ∧
  (∀ t, get Q "timestamp" = Some t → u_timestamp r.1 = t) ∧
  previous_data_cache r.2 !! S = Some Q.

(** A quote whose optional fields are all present and whose floats have
    two decimals, and the same quote without a bid price. *)
Definition reliance : StockQuote :=
  {| symbol := "500325"; company_name := "Reliance Industries Limited";
     current_price := Q2Qc (250150 # 100); change := Q2Qc (150 # 100);
     percent_change := Q2Qc (6 # 100); volume := 1234567;
     timestamp := "2024-01-01T09:15:00";
     bid_price := Some (Q2Qc (2501 # 1)); ask_price := Some (Q2Qc (2502 # 1));
     high := Some (Q2Qc (2505 # 1)); low := Some (Q2Qc (2498 # 1)) |}.

Definition reliance_up : StockQuote :=
  {| symbol := "500325"; company_name := "Reliance Industries Limited";
     current_price := Q2Qc (250275 # 100); change := Q2Qc (275 # 100);
     percent_change := Q2Qc (11 # 100); volume := 1234567;
     timestamp := "2024-01-01T09:15:05";
     bid_price := Some (Q2Qc (2501 # 1)); ask_price := Some (Q2Qc (2502 # 1));
     high := Some (Q2Qc (2505 # 1)); low := Some (Q2Qc (2498 # 1)) |}.

(** A baseline with a volume, and new data that no longer has one. *)
Definition with_volume : dict :=
  [ ("symbol", VStr "R"); ("volume", VInt 5) ].

Definition without_volume : dict :=
  [ ("symbol", VStr "R") ].

Definition service_with (S : string) (B : dict) : CompressionService :=
  {| previous_data_cache := {[ S := B ]};
     compression_stats := Build_stats 0 0 0 0 0 |}.

(** The sample of [examples/compression_demo.py]. *)
Definition sample_data : dict :=
  [ ("symbol", VStr "TEST");
    ("company_name", VStr "Test Company");
    ("current_price", VFloat (Q2Qc (1234123456789 # 1000000000)));
    ("percent_change", VFloat (Q2Qc (123456789 # 1000000000)));
    ("volume", VInt 1234567);
    ("bid_price", VNone);
    ("ask_price", VFloat (Q2Qc (12345 # 10))) ].

End Codec.

(* ===================================================================== *)
(** * Exceptions and clocks *)
(* ===================================================================== *)

Module Exn.

(** A raised exception: its class and its message.  [Exception] itself
    is the class ["Exception"]. *)
Record exn := { exn_class : string; exn_message : string }.

#[global] Instance exn_eq_dec : EqDecision exn.
Proof. solve_decision. Defined.

(** The outcome of a call that may raise. *)
Inductive outcome (A : Type) :=
| Returned (a : A)
| Raised (e : exn).
Arguments Returned {A} a.
Arguments Raised {A} e.

(** [datetime] values are microseconds on a time line;
    [(t1 - t0).total_seconds() >= seconds] for a whole number of
    seconds. *)
Definition total_seconds_ge (t1 t0 seconds : Z) : bool :=
  bool_decide (seconds * 1000000 ≤ t1 - t0).

End Exn.

(* ===================================================================== *)
(** * services/monitoring_service.py: CircuitBreaker *)
(* ===================================================================== *)

Module Breaker.
Import Exn.

Inductive breaker_state := closed | open | half_open.

#[global] Instance breaker_state_eq_dec : EqDecision breaker_state.
Proof. solve_decision. Defined.

Record CircuitBreaker := {
  failure_threshold : Z;
  recovery_timeout : Z;
  expected_exception : exn → bool;     (* [isinstance(e, expected_exception)] *)
  failure_count : Z;
  last_failure_time : option Z;
  state : breaker_state
}.

(** [CircuitBreaker(failure_threshold, recovery_timeout)], which expects
    every [Exception]. *)
Definition new (failure_threshold recovery_timeout : Z) : CircuitBreaker :=
  {| failure_threshold := failure_threshold;
     recovery_timeout := recovery_timeout;
     expected_exception := λ _, true;
     failure_count := 0;
     last_failure_time := None;
     state := closed |}.

Definition circuit_open_error : exn :=
  {| exn_class := "Exception"; exn_message := "Circuit breaker is open" |}.

Definition with_state (self : CircuitBreaker) (s : breaker_state)
    : CircuitBreaker :=
  {| failure_threshold := failure_threshold self;
     recovery_timeout := recovery_timeout self;
     expected_exception := expected_exception self;
     failure_count := failure_count self;
     last_failure_time := last_failure_time self;
     state := s |}.

(** [now] is the reading of [datetime.now()]. *)
Definition _should_attempt_reset (self : CircuitBreaker) (now : Z) : bool :=
  match last_failure_time self with
  | None => true
  | Some last => total_seconds_ge now last (recovery_timeout self)
  end.

Definition _on_success (self : CircuitBreaker) : CircuitBreaker :=
  {| failure_threshold := failure_threshold self;
     recovery_timeout := recovery_timeout self;
     expected_exception := expected_exception self;
     failure_count := 0;
     last_failure_time := last_failure_time self;
     state := if decide (state self = half_open) then closed
                 else state self |}.

Definition _on_failure (self : CircuitBreaker) (now : Z) : CircuitBreaker :=
  let count := failure_count self + 1 in
  {| failure_threshold := failure_threshold self;
     recovery_timeout := recovery_timeout self;
     expected_exception := expected_exception self;
     failure_count := count;
     last_failure_time := Some now;
     state := if decide (failure_threshold self ≤ count) then open
                 else state self |}.

(** The first statement of [call]: an open breaker turns half-open when
    the timeout has passed, and rejects the call ([None]) otherwise. *)
Definition enter (self : CircuitBreaker) (now : Z) : option CircuitBreaker :=
  if decide (state self = open) then
    if _should_attempt_reset self now then Some (with_state self half_open)
    else None
  else Some self.

Section Call.
Context {W A : Type}.
(** The clock of the world, read by [datetime.now()]. *)
Variable clock : W → Z.

(** [call(func)]: the wrapped operation acts on the world; the result
    is what [call] returns or raises, the breaker after the call and the
    world after it. *)
Definition call (self : CircuitBreaker) (func : W → outcome A * W) (w : W)
    : outcome A * CircuitBreaker * W :=
  match enter self (clock w) with
  | None => (Raised circuit_open_error, self, w)
  | Some self =>
      let '(r, w') := func w in
      match r with
      | Returned result => (Returned result, _on_success self, w')
      | Raised e =>
          if expected_exception self e
          then (Raised e, _on_failure self (clock w'), w')
          else (Raised e, self, w')
      end
  end.

(** A run of calls, one wrapped operation after the other. *)
Fixpoint call_each (self : CircuitBreaker) (funcs : list (W → outcome A * W))
    (w : W) : CircuitBreaker * W :=
  match funcs with
  | [] => (self, w)
  | func :: funcs' =>
      let '(_, self', w') := call self func w in call_each self' funcs' w'
  end.

(** An operation that fails whenever it is invoked, with an exception the
    breaker expects. *)
Definition fails (self : CircuitBreaker) (func : W → outcome A * W) : Prop :=
  ∀ w, ∃ e, (func w).1 = Raised e ∧ expected_exception self e = true.

End Call.

(** A world that is only a clock, an operation that takes a second and
    fails, and one that takes a second and succeeds. *)
Definition failing_op (w : Z) : outcome Z * Z :=
  (Raised {| exn_class := "ConnectionError"; exn_message := "timeout" |},
   w + 1000000).

Definition working_op (w : Z) : outcome Z * Z := (Returned 42, w + 1000000).

End Breaker.

(* ===================================================================== *)
(** * services/batch_data_fetcher.py *)
(* ===================================================================== *)

Module Fetcher.
Import Exn.

Inductive SymbolPriority := HIGH | MEDIUM | LOW.

Record SymbolConfig := {
  symbol : string;
  priority : SymbolPriority;
  last_updated : option Z;
  update_count : Z;
  error_count : Z;
  last_error : option string
}.

Record BatchResult := {
  successful_quotes : gmap string Quote.StockQuote;
  failed_symbols : gmap string string;     (* symbol -> error message *)
  fetch_time : Z;
  batch_duration : Z
}.

(** What the fetcher does to the outside, in the order it does it. *)
Inductive event :=
| GetQuote (symbol : string)    (* [bse_client.getQuote(symbol)] *)
| Sleep (delay : Qc)            (* [time.sleep(delay)] *)
| Callback (index : nat) (quotes : gmap string Quote.StockQuote).
                                (* [update_callbacks[index](quotes)] *)

Section Model.
(** The outside world [W]: its clock ([datetime.now()], [time.time()]),
    the upstream API, whose answer is a response ([None] for an empty
    one) or an exception, the conversion of a response to a quote at a
    time, which may raise too, [random.random()] and [time.sleep]. *)
Context {W quote_data : Type}.
Variable clock : W → Z.
Variable getQuote : string → W → outcome (option quote_data) * W.
Variable make_quote : string → quote_data → Z → outcome Quote.StockQuote.
Variable random : W → Qc * W.
Variable sleep : Qc → W → W.

(** A registered callback reads the quotes and acts on the world. *)
Definition callback : Type :=
  gmap string Quote.StockQuote → W → outcome () * W.

Record BatchDataFetcher := {
  max_batch_size : Z;
  max_retries : Z;
  base_retry_delay : Qc;
  max_retry_delay : Qc;
  (* [monitoring_service.get_circuit_breaker("bse_api")], when there is
     a monitoring service and it has that breaker *)
  bse_api_breaker : option Breaker.CircuitBreaker;
  watched_symbols : gmap string SymbolConfig;
  update_callbacks : list callback;
  circuit_breaker_failures : Z;
  circuit_breaker_threshold : Z;
  circuit_breaker_reset_time : option Z;
  circuit_breaker_timeout : Z;
  total_requests : Z;
  successful_requests : Z;
  failed_requests : Z;
  last_batch_time : option Z
}.

Definition set_bse_api_breaker (f : BatchDataFetcher)
    (b : option Breaker.CircuitBreaker) : BatchDataFetcher :=
  Build_BatchDataFetcher (max_batch_size f) (max_retries f)
    (base_retry_delay f) (max_retry_delay f) b (watched_symbols f)
    (update_callbacks f) (circuit_breaker_failures f)
    (circuit_breaker_threshold f) (circuit_breaker_reset_time f)
    (circuit_breaker_timeout f) (total_requests f) (successful_requests f)
    (failed_requests f) (last_batch_time f).

Definition set_watched_symbols (f : BatchDataFetcher)
    (ws : gmap string SymbolConfig) : BatchDataFetcher :=
  Build_BatchDataFetcher (max_batch_size f) (max_retries f)
    (base_retry_delay f) (max_retry_delay f) (bse_api_breaker f) ws
    (update_callbacks f) (circuit_breaker_failures f)
    (circuit_breaker_threshold f) (circuit_breaker_reset_time f)
    (circuit_breaker_timeout f) (total_requests f) (successful_requests f)
    (failed_requests f) (last_batch_time f).

Definition set_update_callbacks (f : BatchDataFetcher)
    (cbs : list callback) : BatchDataFetcher :=
  Build_BatchDataFetcher (max_batch_size f) (max_retries f)
    (base_retry_delay f) (max_retry_delay f) (bse_api_breaker f)
    (watched_symbols f) cbs (circuit_breaker_failures f)
    (circuit_breaker_threshold f) (circuit_breaker_reset_time f)
    (circuit_breaker_timeout f) (total_requests f) (successful_requests f)
    (failed_requests f) (last_batch_time f).

(** [circuit_breaker_failures] and [circuit_breaker_reset_time] *)
Definition set_circuit_breaker (f : BatchDataFetcher) (failures : Z)
    (reset_time : option Z) : BatchDataFetcher :=
  Build_BatchDataFetcher (max_batch_size f) (max_retries f)
    (base_retry_delay f) (max_retry_delay f) (bse_api_breaker f)
    (watched_symbols f) (update_callbacks f) failures
    (circuit_breaker_threshold f) reset_time
    (circuit_breaker_timeout f) (total_requests f) (successful_requests f)
    (failed_requests f) (last_batch_time f).

(** The performance counters and [last_batch_time] *)
Definition set_performance (f : BatchDataFetcher)
    (total successful failed : Z) (last : option Z) : BatchDataFetcher :=
  Build_BatchDataFetcher (max_batch_size f) (max_retries f)
    (base_retry_delay f) (max_retry_delay f) (bse_api_breaker f)
    (watched_symbols f) (update_callbacks f) (circuit_breaker_failures f)
    (circuit_breaker_threshold f) (circuit_breaker_reset_time f)
    (circuit_breaker_timeout f) total successful failed last.

(** ** The state the methods run in, and its monad *)

Record env := {
  fetcher : BatchDataFetcher;
  world : W;
  trace : list event
}.

Definition M (A : Type) : Type := env → outcome A * env.

Definition ret {A} (a : A) : M A := λ e, (Returned a, e).

Definition bind {A B} (m : M A) (k : A → M B) : M B :=
  λ e, match m e with
       | (Returned a, e') => k a e'
       | (Raised x, e') => (Raised x, e')
       end.

(** [try: m except Exception as x: handler(x)] *)
Definition try_except {A} (m : M A) (handler : exn → M A) : M A :=
  λ e, match m e with
       | (Returned a, e') => (Returned a, e')
       | (Raised x, e') => handler x e'
       end.

Notation "'let*' x ':=' m 'in' k" := (bind m (λ x, k))
  (at level 10, x name, m at level 100, k at level 200).
Notation "'run' m 'in' k" := (bind m (λ _, k))
  (at level 10, m at level 100, k at level 200).

Definition lift_outcome {A} (o : outcome A) : M A := λ e, (o, e).

Definition get_self : M BatchDataFetcher := λ e, (Returned (fetcher e), e).

Definition modify_self (g : BatchDataFetcher → BatchDataFetcher) : M () :=
  λ e, (Returned (),
        {| fetcher := g (fetcher e); world := world e; trace := trace e |}).

Definition now : M Z := λ e, (Returned (clock (world e)), e).

Definition emit_event (ev : event) : M () :=
  λ e, (Returned (),
        {| fetcher := fetcher e; world := world e;
           trace := (trace e ++ [ev])%list |}).

(** An action of the outside world. *)
Definition on_world {A} (act : W → outcome A * W) : M A :=
  λ e, let '(r, w) := act (world e) in
       (r, {| fetcher := fetcher e; world := w; trace := trace e |}).

(** ** Watch list *)

Definition add_symbol_to_watch (symbol : string) (priority : SymbolPriority)
    : M bool :=
  let* self := get_self in
  match watched_symbols self !! symbol with
  | Some _ => ret false
  | None =>
      run modify_self (λ f, set_watched_symbols f
        (<[symbol := {| symbol := symbol; priority := priority;
                        last_updated := None; update_count := 0;
                        error_count := 0; last_error := None |}]>
           (watched_symbols f))) in
      ret true
  end.

Definition add_update_callback (cb : callback) : M () :=
  modify_self (λ f, set_update_callbacks f (update_callbacks f ++ [cb])%list).

(** ** Circuit breaker of the fetcher *)

Definition _is_circuit_breaker_open : M bool :=
  let* self := get_self in
  if decide (circuit_breaker_failures self < circuit_breaker_threshold self)
  then ret false
  else
    let* t := now in
    match circuit_breaker_reset_time self with
    | None =>
        run modify_self (λ f, set_circuit_breaker f (circuit_breaker_failures f)
          (Some (t + circuit_breaker_timeout self * 1000000))) in
        ret true
    | Some reset_time =>
        if decide (reset_time ≤ t) then
          run modify_self (λ f, set_circuit_breaker f 0 None) in
          ret false
        else ret true
    end.

(** ** Retry delay *)

Definition Qc_of_Z (z : Z) : Qc := Q2Qc (inject_Z z).

Definition Qc_min (a b : Qc) : Qc := if Qclt_le_dec b a then b else a.

(** [_calculate_retry_delay(attempt)], for the draw [r] of
    [random.random()] *)
Definition _calculate_retry_delay (self : BatchDataFetcher) (attempt : Z)
    (r : Qc) : Qc :=
  let delay := (base_retry_delay self * Qc_of_Z (2 ^ attempt))%Qc in
  let jitter := (delay * Q2Qc (1 # 4) * (Qc_of_Z 2 * r - Qc_of_Z 1))%Qc in
  Qc_min (delay + jitter)%Qc (max_retry_delay self).

(** ** Fetching one quote *)

(** [self.bse_client.getQuote(symbol)] *)
Definition call_getQuote (symbol : string) : M (option quote_data) :=
  run emit_event (GetQuote symbol) in
  on_world (getQuote symbol).

(** [circuit_breaker.call(func)] for the breaker of the monitoring
    service, which keeps its new state. *)
Definition via_breaker {A} (cb : Breaker.CircuitBreaker) (func : M A) : M A :=
  λ e, let '(r, cb', e') := Breaker.call (λ e, clock (world e)) cb func e in
       (r, {| fetcher := set_bse_api_breaker (fetcher e') (Some cb');
              world := world e'; trace := trace e' |}).

(** [_fetch_single_quote(symbol)].  The metrics and the error handler's
    records, which only count, are left out. *)
Definition _fetch_single_quote (symbol : string)
    : M (option Quote.StockQuote) :=
  try_except
    (let* self := get_self in
     let* quote_data :=
       match bse_api_breaker self with
       | Some cb => via_breaker cb (call_getQuote symbol)
       | None => call_getQuote symbol
       end in
     match quote_data with
     | None => ret None
     | Some data =>
         let* t := now in
         let* quote := lift_outcome (make_quote symbol data t) in
         ret (Some quote)
     end)
    (λ _, ret None).

(** ** Fetching a batch *)

Definition set_successful (result : BatchResult) (symbol : string)
    (quote : Quote.StockQuote) : BatchResult :=
  {| successful_quotes := <[symbol := quote]> (successful_quotes result);
     failed_symbols := failed_symbols result;
     fetch_time := fetch_time result;
     batch_duration := batch_duration result |}.

Definition set_failed (result : BatchResult) (symbol : string)
    (error : string) : BatchResult :=
  {| successful_quotes := successful_quotes result;
     failed_symbols := <[symbol := error]> (failed_symbols result);
     fetch_time := fetch_time result;
     batch_duration := batch_duration result |}.

(** The update of the symbol's config after a success *)
Definition record_success (symbol : string) : M () :=
  let* t := now in
  modify_self (λ f,
    match watched_symbols f !! symbol with
    | Some config =>
        set_watched_symbols f
          (<[symbol := {| symbol := Fetcher.symbol config;
                          priority := priority config;
                          last_updated := Some t;
                          update_count := update_count config + 1;
                          error_count := 0;
                          last_error := None |}]> (watched_symbols f))
    | None => f
    end).

(** The bookkeeping of [if not success:], but for the result *)
Definition record_failure (symbol : string) (error : option string) : M () :=
  modify_self (λ f,
    let f := set_circuit_breaker f (circuit_breaker_failures f + 1)
               (circuit_breaker_reset_time f) in
    match watched_symbols f !! symbol with
    | Some config =>
        set_watched_symbols f
          (<[symbol := {| symbol := Fetcher.symbol config;
                          priority := priority config;
                          last_updated := last_updated config;
                          update_count := update_count config;
                          error_count := error_count config + 1;
                          last_error := error |}]> (watched_symbols f))
    | None => f
    end).

(** [time.sleep(self._calculate_retry_delay(attempt))] *)
Definition retry_sleep (attempt : Z) : M () :=
  let* self := get_self in
  let* r := on_world (λ w, let '(r, w') := random w in (Returned r, w')) in
  let delay := _calculate_retry_delay self attempt r in
  run emit_event (Sleep delay) in
  on_world (λ w, (Returned (), sleep delay w)).

(** [for attempt in range(self.max_retries + 1)], from [attempt] on with
    [remaining] rounds to go.  The result is the batch result, [success]
    and [last_error]. *)
Fixpoint retry_loop (symbol : string) (result : BatchResult) (attempt : Z)
    (remaining : nat) (last_error : option string)
    : M (BatchResult * bool * option string) :=
  match remaining with
  | O => ret (result, false, last_error)
  | S remaining' =>
      let* r :=
        try_except
          (let* quote := _fetch_single_quote symbol in
           match quote with
           | Some q =>
               run record_success symbol in
               ret (inl (set_successful result symbol q))      (* break *)
           | None => ret (inr "No data returned from API")
           end)
          (λ x, ret (inr (exn_message x))) in
      match r with
      | inl result' => ret (result', true, last_error)
      | inr error =>
          let* self := get_self in
          run (if decide (attempt < max_retries self)
               then retry_sleep attempt else ret ()) in
          retry_loop symbol result (attempt + 1) remaining' (Some error)
      end
  end.

(** [last_error or "Unknown error"] *)
Definition error_or_unknown (last_error : option string) : string :=
  match last_error with
  | Some error => if decide (error = "") then "Unknown error" else error
  | None => "Unknown error"
  end.

(** One round of [for symbol in symbols] *)
Definition fetch_symbol (symbol : string) (result : BatchResult)
    : M BatchResult :=
  let* self := get_self in
  let* r := retry_loop symbol result 0 (Z.to_nat (max_retries self + 1)) None in
  if r.1.2 then ret r.1.1
  else
    run record_failure symbol r.2 in
    ret (set_failed r.1.1 symbol (error_or_unknown r.2)).

Fixpoint fetch_each (symbols : list string) (result : BatchResult)
    : M BatchResult :=
  match symbols with
  | [] => ret result
  | symbol :: symbols' =>
      let* result' := fetch_symbol symbol result in
      fetch_each symbols' result'
  end.

(** [for callback in self.update_callbacks], from position [index] on *)
Fixpoint notify (callbacks : list callback) (index : nat)
    (quotes : gmap string Quote.StockQuote) : M () :=
  match callbacks with
  | [] => ret ()
  | cb :: callbacks' =>
      run try_except
            (run emit_event (Callback index quotes) in on_world (cb quotes))
            (λ _, ret ()) in
      notify callbacks' (S index) quotes
  end.

Definition circuit_open_message : string :=
  "Circuit breaker is open, skipping batch fetch".

(** [{symbol: error_msg for symbol in symbols}] *)
Definition all_failed (symbols : list string) (error_msg : string)
    : gmap string string :=
  foldl (λ m symbol, <[symbol := error_msg]> m) ∅ symbols.

Definition fetch_batch_quotes (symbols : list string) : M BatchResult :=
  let* start_time := now in
  let* fetch_time := now in
  let result := {| successful_quotes := ∅; failed_symbols := ∅;
                   fetch_time := fetch_time; batch_duration := 0 |} in
  let* is_open := _is_circuit_breaker_open in
  if is_open : bool then
    ret {| successful_quotes := successful_quotes result;
           failed_symbols := all_failed symbols circuit_open_message;
           fetch_time := fetch_time; batch_duration := 0 |}
  else
    let* self := get_self in
    let symbols :=
      if decide (max_batch_size self < Z.of_nat (length symbols))
      then Py.slice_to symbols (max_batch_size self) else symbols in
    let* result := fetch_each symbols result in
    run modify_self (λ f, set_performance f
          (total_requests f + 1)
          (if decide (successful_quotes result = ∅)
           then successful_requests f else successful_requests f + 1)
          (if decide (failed_symbols result = ∅)
           then failed_requests f else failed_requests f + 1)
          (Some fetch_time)) in
    let* end_time := now in
    let result := {| successful_quotes := successful_quotes result;
                     failed_symbols := failed_symbols result;
                     fetch_time := fetch_time;
                     batch_duration := end_time - start_time |} in
    let* self := get_self in
    run (if decide (successful_quotes result ≠ ∅ ∧ update_callbacks self ≠ [])
         then notify (update_callbacks self) 0 (successful_quotes result)
         else ret ()) in
    ret result.

(** ** What a computation returns

    [returns m e P]: run in [e], [m] raises nothing, and its result and
    final state satisfy [P]. *)
Definition returns {A} (m : M A) (e : env) (P : A → env → Prop) : Prop :=
  ∃ a e', m e = (Returned a, e') ∧ P a e'.

(** [extends allowed e e']: from [e] to [e'] the registered callbacks
    and the batch size stay, and the trace grows by allowed events. *)
Definition extends (allowed : event → Prop) (e e' : env) : Prop :=
  update_callbacks (fetcher e') = update_callbacks (fetcher e) ∧
  max_batch_size (fetcher e') = max_batch_size (fetcher e) ∧
  ∃ new, trace e' = (trace e ++ new)%list ∧ Forall allowed new.

(** The events of the rounds for one symbol *)
Definition for_symbol (s : string) (ev : event) : Prop :=
  ev = GetQuote s ∨ ∃ d, ev = Sleep d.

(** The events of the rounds for a list of symbols *)
Definition for_symbols (l : list string) (ev : event) : Prop :=
  (∃ s, s ∈ l ∧ ev = GetQuote s) ∨ ∃ d, ev = Sleep d.

(** The symbols a batch result speaks of *)
Definition covered (result : BatchResult) : gset string :=
  dom (successful_quotes result) ∪ dom (failed_symbols result).

(** The symbols the loop runs over *)
Definition batch_of (self : BatchDataFetcher) (symbols : list string)
    : list string :=
  if decide (max_batch_size self < Z.of_nat (length symbols))
  then Py.slice_to symbols (max_batch_size self) else symbols.

(** The callback invocations of a trace *)
Definition callback_events (tr : list event)
    : list (nat * gmap string Quote.StockQuote) :=
  omap (λ ev, match ev with Callback i q => Some (i, q) | _ => None end) tr.

(** The symbols the upstream API was asked for in a trace *)
Definition getQuote_events (tr : list event) : list string :=
  omap (λ ev, match ev with GetQuote s => Some s | _ => None end) tr.

(** The callback sentence of the specification, in its words: after the
    batch every registered callback has been invoked once with the map
    of the successful quotes. *)
Definition notifies_every_callback (symbols : list string) (e : env)
    : Prop :=
  returns (fetch_batch_quotes symbols) e
    (λ res e',
       ∃ new, trace e' = (trace e ++ new)%list ∧
         callback_events new
         = imap (λ i _, (i, successful_quotes res))
             (update_callbacks (fetcher e))).

End Model.

(** ** A small world to run the fetcher in

    The world is a clock.  The API knows the symbol ["GOOD"] only; every
    call takes a millisecond. *)
Definition demo_getQuote (symbol : string) (w : Z)
    : outcome (option ()) * Z :=
  (Returned (if decide (symbol = "GOOD") then Some () else None), w + 1000).

Definition demo_quote (symbol : string) : Quote.StockQuote :=
  {| Quote.symbol := symbol; Quote.company_name := "Unknown";
     Quote.current_price := Q2Qc 0; Quote.change := Q2Qc 0;
     Quote.percent_change := Q2Qc 0; Quote.volume := 0;
     Quote.timestamp := "2024-01-01T09:15:00";
     Quote.bid_price := None; Quote.ask_price := None;
     Quote.high := None; Quote.low := None |}.

Definition demo_make_quote (symbol : string) (data : ()) (t : Z)
    : outcome Quote.StockQuote :=
  Returned (demo_quote symbol).

Definition demo_random (w : Z) : Qc * Z := (Q2Qc (1 # 2), w).

Definition demo_sleep (delay : Qc) (w : Z) : Z := w + 1000000.

Definition raising_callback : @callback Z :=
  λ _ w, (Raised {| exn_class := "KeyError"; exn_message := "no cache" |}, w).

Definition quiet_callback : @callback Z :=
  λ _ w, (Returned (), w + 1000).

(** A fetcher for batches of two, without retries, with two callbacks
    and [failures] failures on its breaker. *)
Definition demo_fetcher (failures : Z) : BatchDataFetcher (W := Z) :=
  {| max_batch_size := 2; max_retries := 0;
     base_retry_delay := Q2Qc 1; max_retry_delay := Q2Qc 60;
     bse_api_breaker := None; watched_symbols := ∅;
     update_callbacks := [raising_callback; quiet_callback];
     circuit_breaker_failures := failures; circuit_breaker_threshold := 5;
     circuit_breaker_reset_time := None; circuit_breaker_timeout := 300;
     total_requests := 0; successful_requests := 0; failed_requests := 0;
     last_batch_time := None |}.

Definition demo_env (failures : Z) : env (W := Z) :=
  {| fetcher := demo_fetcher failures; world := 0; trace := [] |}.

Definition demo_fetch (symbols : list string) : M (W := Z) BatchResult :=
  fetch_batch_quotes id demo_getQuote demo_make_quote demo_random demo_sleep
    symbols.

End Fetcher.

(* ===================================================================== *)
(** * services/websocket_manager.py *)
(* ===================================================================== *)

Module Registry.

(** The messages the services put on the socket. *)
Inductive message :=
| SubscriptionConfirmed (symbols : list string) (timestamp : string)
| StockUpdateOptimized (data : Codec.update) (timestamp : string)
| StockUpdateCompressed (data : string) (timestamp : string)
| BatchUpdate (data : list Codec.update) (count : nat) (timestamp : string)
| BatchUpdateCompressed (data : string) (count : nat) (timestamp : string).

(** [socketio.emit(event, message, room=client_id)] *)
Record emission := {
  em_event : string;
  em_room : string;
  em_message : message
}.

Record WebSocketManager := {
  socketio : list emission;                            (* what was emitted *)
  client_subscriptions : gmap string (gset string);    (* client_id -> symbols *)
  symbol_subscribers : gmap string (gset string);      (* symbol -> client_ids *)
  connected_clients : gset string;
  message_queue : gmap string (list message)
}.

Definition init : WebSocketManager :=
  {| socketio := []; client_subscriptions := ∅; symbol_subscribers := ∅;
     connected_clients := ∅; message_queue := ∅ |}.

Definition emit (self : WebSocketManager) (event room : string)
    (msg : message) : WebSocketManager :=
  {| socketio := (socketio self
                  ++ [{| em_event := event; em_room := room;
                         em_message := msg |}])%list;
     client_subscriptions := client_subscriptions self;
     symbol_subscribers := symbol_subscribers self;
     connected_clients := connected_clients self;
     message_queue := message_queue self |}.

Definition set_subscriptions (self : WebSocketManager)
    (cs ss : gmap string (gset string)) : WebSocketManager :=
  {| socketio := socketio self;
     client_subscriptions := cs;
     symbol_subscribers := ss;
     connected_clients := connected_clients self;
     message_queue := message_queue self |}.

(** [m[k]] for a set-valued dictionary, at a key that is there *)
Definition at_key (m : gmap string (gset string)) (k : string) : gset string :=
  default ∅ (m !! k).

(** The handler of [connect] *)
Definition handle_connect (self : WebSocketManager) (client_id : string)
    : WebSocketManager :=
  {| socketio := socketio self;
     client_subscriptions := <[client_id := ∅]> (client_subscriptions self);
     symbol_subscribers := symbol_subscribers self;
     connected_clients := {[client_id]} ∪ connected_clients self;
     message_queue := message_queue self |}.

Definition _queue_message_for_client (self : WebSocketManager)
    (client_id : string) (msg : message) : WebSocketManager :=
  let queue := default [] (message_queue self !! client_id) in
  let queue := if decide (100 ≤ Z.of_nat (length queue)) then drop 1 queue
               else queue in
  {| socketio := socketio self;
     client_subscriptions := client_subscriptions self;
     symbol_subscribers := symbol_subscribers self;
     connected_clients := connected_clients self;
     message_queue := <[client_id := (queue ++ [msg])%list]> (message_queue self) |}.

Definition send_to_client (self : WebSocketManager) (client_id : string)
    (msg : message) : WebSocketManager :=
  if decide (client_id ∈ connected_clients self)
  then emit self "message" client_id msg
  else _queue_message_for_client self client_id msg.

(** One round of [for symbol in new_symbols] *)
Definition add_subscriber (client_id : string)
    (subscribers : gmap string (gset string)) (symbol : string)
    : gmap string (gset string) :=
  let subscribers :=
    if decide (symbol ∈ dom subscribers) then subscribers
    else <[symbol := ∅]> subscribers in
  <[symbol := at_key subscribers symbol ∪ {[client_id]}]> subscribers.

(** [subscribers[symbol].discard(client_id)] and the clean-up of an
    empty entry, for a symbol that may have no entry *)
Definition remove_subscriber (client_id : string)
    (subscribers : gmap string (gset string)) (symbol : string)
    : gmap string (gset string) :=
  if decide (symbol ∈ dom subscribers) then
    let subscribers :=
      <[symbol := at_key subscribers symbol ∖ {[client_id]}]> subscribers in
    if decide (at_key subscribers symbol = ∅) then delete symbol subscribers
    else subscribers
  else subscribers.

(** [handle_client_subscription(client_id, symbols)]; [now] is the
    value of [datetime.now().isoformat()].  The set [new_symbols] is
    gone through in the order of [elements]. *)
Definition handle_client_subscription (now : string)
    (self : WebSocketManager) (client_id : string) (symbols : list string)
    : WebSocketManager :=
  if decide (client_id ∈ connected_clients self) then
    let cs := client_subscriptions self in
    let cs := if decide (client_id ∈ dom cs) then cs
              else <[client_id := ∅]> cs in
    let new_symbols : gset string := list_to_set symbols ∖ at_key cs client_id in
    let cs := <[client_id := at_key cs client_id ∪ list_to_set symbols]> cs in
    let ss := foldl (add_subscriber client_id) (symbol_subscribers self)
                (elements new_symbols) in
    send_to_client (set_subscriptions self cs ss) client_id
      (SubscriptionConfirmed symbols now)
  else self.

(** One round of [for symbol in symbols] of
    [_unsubscribe_client_from_symbols]; the loop state is the two maps. *)
Definition unsubscribe_step (client_id : string)
    (maps : gmap string (gset string) * gmap string (gset string))
    (symbol : string) : gmap string (gset string) * gmap string (gset string) :=
  (<[client_id := at_key maps.1 client_id ∖ {[symbol]}]> maps.1,
   remove_subscriber client_id maps.2 symbol).

Definition _unsubscribe_client_from_symbols (self : WebSocketManager)
    (client_id : string) (symbols : list string) : WebSocketManager :=
  if decide (client_id ∈ dom (client_subscriptions self)) then
    let maps := foldl (unsubscribe_step client_id)
                  (client_subscriptions self, symbol_subscribers self)
                  symbols in
    set_subscriptions self maps.1 maps.2
  else self.

(** [_cleanup_client(client_id)]; the set of subscribed symbols is gone
    through in the order of [elements]. *)
Definition _cleanup_client (self : WebSocketManager) (client_id : string)
    : WebSocketManager :=
  let connected := connected_clients self ∖ {[client_id]} in
  let '(cs, ss) :=
    if decide (client_id ∈ dom (client_subscriptions self)) then
      let subscribed_symbols := at_key (client_subscriptions self) client_id in
      (delete client_id (client_subscriptions self),
       foldl (remove_subscriber client_id) (symbol_subscribers self)
         (elements subscribed_symbols))
    else (client_subscriptions self, symbol_subscribers self) in
  {| socketio := socketio self;
     client_subscriptions := cs;
     symbol_subscribers := ss;
     connected_clients := connected;
     message_queue := message_queue self |}.

(** ** The registry invariant *)

Definition no_empty (ss : gmap string (gset string)) : Prop :=
  ∀ S subscribers, ss !! S = Some subscribers → subscribers ≠ ∅.

(** Both maps tell the same relation between clients and symbols, and
    no symbol is kept with an empty set of subscribers. *)
Definition consistent (self : WebSocketManager) : Prop :=
  (∀ C S, S ∈ at_key (client_subscriptions self) C
          ↔ C ∈ at_key (symbol_subscribers self) S) ∧
  no_empty (symbol_subscribers self).

(** The calls of an interleaving *)
Inductive call :=
| Subscribe (now : string) (client_id : string) (symbols : list string)
| Unsubscribe (client_id : string) (symbols : list string)
| Disconnect (client_id : string).

Definition run_call (self : WebSocketManager) (c : call) : WebSocketManager :=
  match c with
  | Subscribe now client_id symbols =>
      handle_client_subscription now self client_id symbols
  | Unsubscribe client_id symbols =>
      _unsubscribe_client_from_symbols self client_id symbols
  | Disconnect client_id => _cleanup_client self client_id
  end.

Definition run_calls (self : WebSocketManager) (calls : list call)
    : WebSocketManager :=
  foldl run_call self calls.

(** Two clients that have just connected *)
Definition two_clients : WebSocketManager :=
  handle_connect (handle_connect init "c1") "c2".

End Registry.

(* ===================================================================== *)
(** * services/optimized_websocket_service.py *)
(* ===================================================================== *)

Module Broadcaster.
Import Registry.

(** The capabilities a client has declared; [handle_client_capabilities]
    stores all five. *)
Record capabilities := {
  supports_compression : bool;
  supports_delta_updates : bool;
  supports_batch_updates : bool;
  max_message_size : Z;
  preferred_compression : string
}.

Record config := {
  max_batch_size : Z;
  batch_timeout_ms : Z;
  enable_compression : bool;
  compression_threshold : Z
}.

Definition default_config : config :=
  {| max_batch_size := 10; batch_timeout_ms := 100;
     enable_compression := true; compression_threshold := 500 |}.

Record OptimizedWebSocketService := {
  compression_service : Codec.CompressionService;
  websocket_manager : WebSocketManager;     (* with the shared [socketio] *)
  client_capabilities : gmap string capabilities;
  batch_config : config;
  pending_batches : gmap string (list Codec.update)
}.

Definition set_compression_service (self : OptimizedWebSocketService)
    (cs : Codec.CompressionService) : OptimizedWebSocketService :=
  {| compression_service := cs;
     websocket_manager := websocket_manager self;
     client_capabilities := client_capabilities self;
     batch_config := batch_config self;
     pending_batches := pending_batches self |}.

Definition set_pending_batches (self : OptimizedWebSocketService)
    (pending : gmap string (list Codec.update)) : OptimizedWebSocketService :=
  {| compression_service := compression_service self;
     websocket_manager := websocket_manager self;
     client_capabilities := client_capabilities self;
     batch_config := batch_config self;
     pending_batches := pending |}.

(** [self.socketio.emit(event, message, room=client_id)] *)
Definition socket_emit (self : OptimizedWebSocketService)
    (event client_id : string) (msg : message) : OptimizedWebSocketService :=
  {| compression_service := compression_service self;
     websocket_manager := emit (websocket_manager self) event client_id msg;
     client_capabilities := client_capabilities self;
     batch_config := batch_config self;
     pending_batches := pending_batches self |}.

(** [handle_client_capabilities_direct(data, client_id)], for the
    capabilities read from [data] with their defaults *)
Definition handle_client_capabilities_direct
    (self : OptimizedWebSocketService) (caps : capabilities)
    (client_id : string) : OptimizedWebSocketService :=
  {| compression_service := compression_service self;
     websocket_manager := websocket_manager self;
     client_capabilities := <[client_id := caps]> (client_capabilities self);
     batch_config := batch_config self;
     pending_batches := pending_batches self |}.

(** [self.client_capabilities.get(client_id, {}).get(key, False)] *)
Definition capability (self : OptimizedWebSocketService) (client_id : string)
    (key : capabilities → bool) : bool :=
  match client_capabilities self !! client_id with
  | Some caps => key caps
  | None => false
  end.

Section Model.
(** The serialisers: the length of [json.dumps(message)] in bytes
    ([None] when it raises), and the base64 text of
    [compress_stock_data] for an update and of [compress_batch_updates]
    for a batch, each with the original and the compressed size that the
    call adds to the statistics ([None] on its fallback path). *)
Variable json_len : message → option Z.
Variable packed_update : Codec.update → string * option (Z * Z).
Variable packed_batch : list Codec.update → string * option (Z * Z).

Definition count_sizes (cs : Codec.CompressionService)
    (sizes : option (Z * Z)) : Codec.CompressionService :=
  match sizes with
  | Some (original, compressed) => Codec.count_compression cs original compressed
  | None => cs
  end.

Definition _send_single_update (now : string)
    (self : OptimizedWebSocketService) (client_id : string)
    (update_data : Codec.update) (use_compression : bool)
    : OptimizedWebSocketService :=
  let message := StockUpdateOptimized update_data now in
  let '(self, message) :=
    if use_compression && enable_compression (batch_config self) then
      match json_len message with
      | Some size =>
          if decide (compression_threshold (batch_config self) < size) then
            let '(encoded_data, sizes) := packed_update update_data in
            (set_compression_service self
               (count_sizes (compression_service self) sizes),
             StockUpdateCompressed encoded_data now)
          else (self, message)
      | None => (self, message)                (* the exception is logged *)
      end
    else (self, message) in
  socket_emit self "optimized_update" client_id message.

Definition _flush_batch (now : string) (self : OptimizedWebSocketService)
    (client_id : string) : OptimizedWebSocketService :=
  match pending_batches self !! client_id with
  | None | Some [] => self
  | Some batch_updates =>
      let self :=
        set_pending_batches self (<[client_id := []]> (pending_batches self)) in
      if capability self client_id supports_compression
         && enable_compression (batch_config self) then
        let '(encoded_batch, sizes) := packed_batch batch_updates in
        socket_emit
          (set_compression_service self
             (count_sizes (compression_service self) sizes))
          "batch_update" client_id
          (BatchUpdateCompressed encoded_batch (length batch_updates) now)
      else
        socket_emit self "batch_update" client_id
          (BatchUpdate batch_updates (length batch_updates) now)
  end.

Definition _add_to_batch (now : string) (self : OptimizedWebSocketService)
    (client_id : string) (update_data : Codec.update)
    : OptimizedWebSocketService :=
  let pending := default [] (pending_batches self !! client_id) in
  let pending := (pending ++ [update_data])%list in
  let self :=
    set_pending_batches self (<[client_id := pending]> (pending_batches self)) in
  if decide (max_batch_size (batch_config self) ≤ Z.of_nat (length pending))
  then _flush_batch now self client_id
  else self.

(** The first half of [_send_update_to_client], "create update
    message": the update and the compression service after it. *)
Definition encode_for_client (now : string) (self : OptimizedWebSocketService)
    (client_id symbol : string) (stock_data : Codec.stock_data)
    (force_full_update : bool) : Codec.update * Codec.CompressionService :=
  if capability self client_id supports_delta_updates
     && negb force_full_update
  then Codec.create_delta_update now (compression_service self) symbol stock_data
  else Codec.create_full_update now (compression_service self) symbol stock_data.

Definition _send_update_to_client (now : string)
    (self : OptimizedWebSocketService) (client_id symbol : string)
    (stock_data : Codec.stock_data) (force_full_update : bool)
    : OptimizedWebSocketService :=
  let '(update_data, cs) :=
    encode_for_client now self client_id symbol stock_data force_full_update in
  let self := set_compression_service self cs in
  if capability self client_id supports_batch_updates
  then _add_to_batch now self client_id update_data
  else _send_single_update now self client_id update_data
         (capability self client_id supports_compression).

(** One round of [for client_id in subscribers] *)
Definition send_step (now : string) (symbol : string)
    (stock_data : Codec.stock_data) (force_full_update : bool)
    (self : OptimizedWebSocketService) (client_id : string)
    : OptimizedWebSocketService :=
  if decide (client_id ∈ connected_clients (websocket_manager self))
  then _send_update_to_client now self client_id symbol stock_data
         force_full_update
  else self.

(** [send_optimized_stock_update(symbol, stock_data, force_full_update)];
    [order] is the order in which the copy of the set of subscribers is
    gone through. *)
Definition send_optimized_stock_update (now : string)
    (self : OptimizedWebSocketService) (symbol : string)
    (stock_data : Codec.stock_data) (force_full_update : bool)
    (order : list string) : OptimizedWebSocketService :=
  if decide (symbol ∈ dom (symbol_subscribers (websocket_manager self)))
  then foldl (send_step now symbol stock_data force_full_update) self order
  else self.

(** The encoding sentence of the specification, in its words: a delta
    encoding is chosen only if the client supports it and a baseline
    exists for the symbol; otherwise the update is a full one. *)
Definition delta_only_with_baseline (now : string)
    (self : OptimizedWebSocketService) (client_id symbol : string)
    (stock_data : Codec.stock_data) (force_full_update : bool) : Prop :=
  let update_data :=
    (encode_for_client now self client_id symbol stock_data
       force_full_update).1 in
  (capability self client_id supports_delta_updates = true ∧
   is_Some (Codec.previous_data_cache (compression_service self) !! symbol))
  ∨ Codec.u_type update_data = "full".

End Model.

(** ** Two clients on one symbol *)

Definition delta_and_batch : capabilities :=
  {| supports_compression := false; supports_delta_updates := true;
     supports_batch_updates := true; max_message_size := 65536;
     preferred_compression := "msgpack" |}.

Definition no_optimization : capabilities :=
  {| supports_compression := false; supports_delta_updates := false;
     supports_batch_updates := false; max_message_size := 65536;
     preferred_compression := "msgpack" |}.

(** Clients [c1] and [c2] are connected and subscribed to ["R"]; [c1]
    has declared delta and batch support, [c2] none. *)
Definition two_subscribers : OptimizedWebSocketService :=
  {| compression_service := Codec.init;
     websocket_manager :=
       run_calls two_clients
         [ Subscribe "09:15:00" "c1" ["R"]; Subscribe "09:15:01" "c2" ["R"] ];
     client_capabilities :=
       <["c2" := no_optimization]> (<["c1" := delta_and_batch]> ∅);
     batch_config := default_config;
     pending_batches := ∅ |}.

Definition no_json (m : message) : option Z := None.
Definition no_pack (u : Codec.update) : string * option (Z * Z) := ("", None).
Definition no_pack_batch (l : list Codec.update) : string * option (Z * Z) :=
  ("", None).

End Broadcaster.

(* ===================================================================== *)
(** * services/cache_integration_service.py *)
(* ===================================================================== *)

Module CacheIntegration.
Import Exn.

Record CacheIntegrationService := {
  essential_stocks : gset string;
  is_running : bool;
  cache_hits : Z;
  cache_misses : Z;
  updates_processed : Z;
  broadcasts_sent : Z
}.

Definition count_hit (self : CacheIntegrationService) : CacheIntegrationService :=
  {| essential_stocks := essential_stocks self; is_running := is_running self;
     cache_hits := cache_hits self + 1; cache_misses := cache_misses self;
     updates_processed := updates_processed self;
     broadcasts_sent := broadcasts_sent self |}.

Definition count_miss (self : CacheIntegrationService) : CacheIntegrationService :=
  {| essential_stocks := essential_stocks self; is_running := is_running self;
     cache_hits := cache_hits self; cache_misses := cache_misses self + 1;
     updates_processed := updates_processed self;
     broadcasts_sent := broadcasts_sent self |}.

Definition count_update (self : CacheIntegrationService) : CacheIntegrationService :=
  {| essential_stocks := essential_stocks self; is_running := is_running self;
     cache_hits := cache_hits self; cache_misses := cache_misses self;
     updates_processed := updates_processed self + 1;
     broadcasts_sent := broadcasts_sent self |}.

Section Model.
(** The world outside the services: the clock, the upstream API and the
    cache store. *)
Context {W quote_data : Type}.
Variable clock : W → Z.
Variable getQuote : string → W → outcome (option quote_data) * W.
Variable make_quote : string → quote_data → Z → outcome Quote.StockQuote.
Variable random : W → Qc * W.
Variable sleep : Qc → W → W.

(** The cache store adapter of the specification, keyed by symbol:
    [get(key) -> value|absent], [set(key, value, ttl)], whose result
    tells whether the value was stored, and [publish(channel, value)]. *)
Variable store_get : string → W → option Quote.StockQuote * W.
Variable store_set : string → Quote.StockQuote → Z → W → bool * W.
Variable store_publish : string → Quote.StockQuote → W → W.

(** Modelled from the spec: [RedisManager.get_stock_data] of
    [cache/redis_manager.py], which is not among the sources: the cache
    lookup, a [get] on the store. *)
Definition cache_get_stock_data (symbol : string) (w : W)
    : option Quote.StockQuote * W :=
  store_get symbol w.

(** Modelled from the spec: [RedisManager.refresh_stock_data] of
    [cache/redis_manager.py], which is not among the sources: it "writes
    to the cache store with a TTL and publishes a change notification on
    the symbol's channel"; the TTL is the default of five minutes.  Its
    result is the success of the write, as the callers read it. *)
Definition cache_refresh_stock_data (symbol : string)
    (quote : Quote.StockQuote) (publish : bool) (w : W) : bool * W :=
  let '(stored, w) := store_set symbol quote 300 w in
  if stored && publish then (true, store_publish symbol quote w)
  else (stored, w).

(** For the fetcher, the integration service is part of the outside:
    its callback counts the updates it has processed. *)
Definition outside : Type := CacheIntegrationService * W.

Definition lift {A} (act : W → A * W) (o : outside) : A * outside :=
  let '(a, w) := act o.2 in (a, (o.1, w)).

Definition lift_outcome {A} (act : W → A * W) (o : outside)
    : outcome A * outside :=
  let '(a, w) := act o.2 in (Returned a, (o.1, w)).

Definition modify_service (g : CacheIntegrationService → CacheIntegrationService)
    (o : outside) : outcome () * outside :=
  (Returned (), (g o.1, o.2)).

Notation "'let*' x ':=' m 'in' k" := (Fetcher.bind m (λ x, k))
  (at level 10, x name, m at level 100, k at level 200).
Notation "'run' m 'in' k" := (Fetcher.bind m (λ _, k))
  (at level 10, m at level 100, k at level 200).

Definition fetch_batch_quotes (symbols : list string)
    : Fetcher.M (W := outside) Fetcher.BatchResult :=
  Fetcher.fetch_batch_quotes (λ o, clock o.2) (λ s, lift (getQuote s))
    make_quote (lift random) (λ d o, (o.1, sleep d o.2)) symbols.

(** One round of the loop of [_handle_batch_updates] *)
Definition handle_update (item : string * Quote.StockQuote) (o : outside)
    : outside :=
  let '(success, w) := cache_refresh_stock_data item.1 item.2 true o.2 in
  (if success then count_update o.1 else o.1, w).

(** [_handle_batch_updates], the callback that [_setup_integration]
    registers with the fetcher *)
Definition _handle_batch_updates : @Fetcher.callback outside :=
  λ stock_quotes o,
    (Returned (), foldl (λ o item, handle_update item o) o
                    (map_to_list stock_quotes)).

Definition _setup_integration : Fetcher.M (W := outside) () :=
  Fetcher.add_update_callback _handle_batch_updates.

(** [get_stock_data(symbol, fetch_if_missing)] *)
Definition get_stock_data (symbol : string) (fetch_if_missing : bool)
    : Fetcher.M (W := outside) (option Quote.StockQuote) :=
  let* stock_quote :=
    Fetcher.on_world (lift_outcome (cache_get_stock_data symbol)) in
  match stock_quote with
  | Some quote =>
      run Fetcher.on_world (modify_service count_hit) in
      Fetcher.ret (Some quote)
  | None =>
      run Fetcher.on_world (modify_service count_miss) in
      if fetch_if_missing then
        let* batch_result := fetch_batch_quotes [symbol] in
        match Fetcher.successful_quotes batch_result !! symbol with
        | Some quote =>
            run Fetcher.on_world
                  (lift_outcome (cache_refresh_stock_data symbol quote true)) in
            Fetcher.ret (Some quote)
        | None => Fetcher.ret None
        end
      else Fetcher.ret None
  end.

(** The state in which the batch fetch of [get_stock_data] starts after
    a cache miss. *)
Definition after_miss (symbol : string) (e : Fetcher.env (W := outside))
    : Fetcher.env (W := outside) :=
  let '(_, w) := cache_get_stock_data symbol (Fetcher.world e).2 in
  {| Fetcher.fetcher := Fetcher.fetcher e;
     Fetcher.world := (count_miss (Fetcher.world e).1, w);
     Fetcher.trace := Fetcher.trace e |}.

End Model.

(** ** A store that is down: nothing is found and nothing is stored *)
Definition down_get (symbol : string) (w : Z) : option Quote.StockQuote * Z :=
  (None, w).

Definition down_set (symbol : string) (quote : Quote.StockQuote) (ttl : Z)
    (w : Z) : bool * Z :=
  (false, w).

Definition down_publish (symbol : string) (quote : Quote.StockQuote) (w : Z)
    : Z := w.

Definition idle : CacheIntegrationService :=
  {| essential_stocks := ∅; is_running := false; cache_hits := 0;
     cache_misses := 0; updates_processed := 0; broadcasts_sent := 0 |}.

(** A fetcher as after [BatchDataFetcher()] and [_setup_integration] *)
Definition demo_env : Fetcher.env (W := CacheIntegrationService * Z) :=
  {| Fetcher.fetcher :=
       {| Fetcher.max_batch_size := 20; Fetcher.max_retries := 3;
          Fetcher.base_retry_delay := Q2Qc 1;
          Fetcher.max_retry_delay := Q2Qc 60;
          Fetcher.bse_api_breaker := None; Fetcher.watched_symbols := ∅;
          Fetcher.update_callbacks :=
            [_handle_batch_updates down_set down_publish];
          Fetcher.circuit_breaker_failures := 0;
          Fetcher.circuit_breaker_threshold := 5;
          Fetcher.circuit_breaker_reset_time := None;
          Fetcher.circuit_breaker_timeout := 300;
          Fetcher.total_requests := 0; Fetcher.successful_requests := 0;
          Fetcher.failed_requests := 0; Fetcher.last_batch_time := None |};
     Fetcher.world := (idle, 0);
     Fetcher.trace := [] |}.

Definition demo_get_stock_data (symbol : string)
    : Fetcher.M (W := CacheIntegrationService * Z) (option Quote.StockQuote) :=
  get_stock_data id Fetcher.demo_getQuote Fetcher.demo_make_quote
    Fetcher.demo_random Fetcher.demo_sleep down_get down_set down_publish
    symbol true.

End CacheIntegration.

(* ===================================================================== *)
(** * Facts about dictionaries *)
(* ===================================================================== *)

Section DictFacts.
Import Py.

Lemma get_set (d : dict) (k k' : string) (v : value) :
  get (set d k v) k' = if decide (k' = k) then Some v else get d k'.
Proof.
  induction d as [|[k0 v0] d IH]; simpl.
  - by repeat case_decide.
  - destruct (decide (k = k0)) as [->|Hne]; simpl.
    + by repeat case_decide.
    + rewrite IH. repeat case_decide; congruence.
Qed.

Lemma get_Some_elem (d : dict) (k : string) (v : value) :
  get d k = Some v → (k, v) ∈ d.
Proof.
  induction d as [|[k0 v0] d IH]; simpl; [done|].
  case_decide as Hk.
  - intros [= ->]. subst. left.
  - intros H. right. by apply IH.
Qed.

Lemma elem_get_Some (d : dict) (k : string) (v : value) :
  wf d → (k, v) ∈ d → get d k = Some v.
Proof.
  unfold wf, keys. induction d as [|[k0 v0] d IH]; simpl.
  - intros _ Hin. by apply elem_of_nil in Hin.
  - intros [Hnotin Hnd]%NoDup_cons [Heq|Hin]%elem_of_cons.
    + injection Heq as -> ->. by rewrite decide_True.
    + rewrite decide_False; [by apply IH|].
      intros ->. apply Hnotin. apply list_elem_of_fmap. by exists (k0, v).
Qed.

Lemma get_None_keys (d : dict) (k : string) :
  get d k = None ↔ k ∉ keys d.
Proof.
  unfold keys. induction d as [|[k0 v0] d IH]; simpl.
  - split; [intros _ ?%elem_of_nil; done | done].
  - case_decide as Hk; subst.
    + split; [done|]. intros H. exfalso. apply H. left.
    + rewrite IH. rewrite not_elem_of_cons. naive_solver.
Qed.

(** The lookups of a dictionary filled by a loop of optional writes,
    when no two items of the list write the same key. *)
Lemma get_fold_put (g : string * value → option (string * value))
    (l : list (string * value)) (acc : dict) (k : string) (v : value) :
  (∀ x y k0 v1 v2, x ∈ l → y ∈ l →
     g x = Some (k0, v1) → g y = Some (k0, v2) → x = y) →
  get (foldl (λ a x, put_opt a (g x)) acc l) k = Some v ↔
    (∃ x, x ∈ l ∧ g x = Some (k, v)) ∨
    ((∀ x v', x ∈ l → g x ≠ Some (k, v')) ∧ get acc k = Some v).
Proof.
  revert acc. induction l as [|x l IH]; intros acc Hinj; simpl.
  - split.
    + intros H. right. split; [|done]. by intros ? ? ?%elem_of_nil.
    + intros [(? & ?%elem_of_nil & _)|[_ H]]; done.
  - rewrite IH; last first.
    { intros ??????? ; eapply Hinj; by try right. }
    split.
    + intros [(y & Hy & Hg)|[Hno Hacc]].
      * left. exists y. split; [by right|done].
      * destruct (g x) as [[k0 v0]|] eqn:Hgx; simpl in Hacc.
        -- rewrite get_set in Hacc. case_decide as Hk.
           ++ subst. injection Hacc as ->. left. exists x. split; [left|done].
           ++ right. split; [|done].
              intros y v' [->|Hy]%elem_of_cons; [congruence|by apply Hno].
        -- right. split; [|done].
           intros y v' [->|Hy]%elem_of_cons; [congruence|by apply Hno].
    + intros [(y & [->|Hy]%elem_of_cons & Hg)|[Hno Hacc]].
      * destruct (decide (Exists (λ z, fst <$> g z = Some k) l)) as [Hex|Hnex].
        -- apply Exists_exists in Hex as (z & Hz & Hgz).
           destruct (g z) as [[k1 v']|] eqn:Hgz'; simplify_eq/=.
           assert (x = z) as -> by (eapply Hinj; [left|by right|done..]).
           left. exists z. split; [done|congruence].
        -- right. split.
           { intros z v' Hz Hgz. apply Hnex, Exists_exists.
             exists z. split; [done|]. by rewrite Hgz. }
           rewrite Hg. simpl. rewrite get_set. by rewrite decide_True.
      * left. by exists y.
      * right. split; [intros z v' Hz; apply Hno; by right|].
        destruct (g x) as [[k0 v0]|] eqn:Hgx; simpl; [|done].
        rewrite get_set. rewrite decide_False; [done|].
        intros ->. eapply (Hno x); [left|done].
Qed.

Lemma keys_set (d : dict) (k : string) (v : value) :
  keys (set d k v) = if decide (k ∈ keys d) then keys d else (keys d ++ [k])%list.
Proof.
  unfold keys. induction d as [|[k0 v0] d IH]; csimpl.
  - destruct (decide (k ∈ [])) as [Hin|_]; [|done]. by apply elem_of_nil in Hin.
  - destruct (decide (k = k0)) as [->|Hne]; csimpl.
    + destruct (decide (k0 ∈ k0 :: d.*1)) as [_|Hn]; [done|].
      exfalso. apply Hn. left.
    + rewrite IH. destruct (decide (k ∈ d.*1)) as [Hin|Hnin].
      * destruct (decide (k ∈ k0 :: d.*1)) as [_|Hn]; [done|].
        exfalso. apply Hn. by right.
      * destruct (decide (k ∈ k0 :: d.*1)) as [Hn|_]; [|done].
        by apply elem_of_cons in Hn as [?|?].
Qed.

Lemma wf_set (d : dict) (k : string) (v : value) : wf d → wf (set d k v).
Proof.
  unfold wf. rewrite keys_set.
  destruct (decide (k ∈ keys d)) as [Hk|Hk]; [done|].
  intros Hnd. apply NoDup_app. split_and!; [done| |apply NoDup_singleton].
  intros x Hx ->%list_elem_of_singleton. done.
Qed.

Lemma wf_fold_put (g : string * value → option (string * value))
    (l : list (string * value)) (acc : dict) :
  wf acc → wf (foldl (λ a x, put_opt a (g x)) acc l).
Proof.
  revert acc. induction l as [|x l IH]; intros acc Hwf; simpl; [done|].
  apply IH. destruct (g x) as [[k v]|]; simpl; [by apply wf_set|done].
Qed.

End DictFacts.

(* ===================================================================== *)
(** * Codec: field remapping *)
(* ===================================================================== *)

Section CodecRemap.
Import Py Codec.

Lemma optimize_step_put (acc : dict) (item : string * value) :
  optimize_step acc item = put_opt acc (opt_entry item).
Proof.
  destruct item as [key [| | |f|]];
    unfold optimize_step, opt_entry, opt_value, short_key; cbn [fst snd];
    try done.
  destruct (bool_decide _); [done|]. by destruct (decide _).
Qed.

Lemma restore_step_put (acc : dict) (item : string * value) :
  restore_step acc item = put_opt acc (restore_entry item).
Proof. by destruct item. Qed.

Lemma optimize_fold (d : dict) :
  _optimize_data_structure d = foldl (λ a x, put_opt a (opt_entry x)) [] d.
Proof.
  unfold _optimize_data_structure. generalize (@nil (string * value)).
  induction d as [|x d IH]; intros acc; simpl; [done|].
  by rewrite optimize_step_put, IH.
Qed.

Lemma restore_fold (d : dict) :
  _restore_data_structure d = foldl (λ a x, put_opt a (restore_entry x)) [] d.
Proof.
  unfold _restore_data_structure. generalize (@nil (string * value)).
  induction d as [|x d IH]; intros acc; simpl; [done|].
  by rewrite restore_step_put, IH.
Qed.

Lemma not_alias (k : string) :
  k ∉ aliases ↔
  k ≠ "s" ∧ k ≠ "cn" ∧ k ≠ "cp" ∧ k ≠ "c" ∧ k ≠ "pc" ∧ k ≠ "v" ∧
  k ≠ "t" ∧ k ≠ "bp" ∧ k ≠ "ap" ∧ k ≠ "h" ∧ k ≠ "l".
Proof.
  unfold aliases, field_mapping. simpl. rewrite !not_elem_of_cons.
  pose proof (not_elem_of_nil k). naive_solver.
Qed.

(** The alias of a field name that is not itself an alias is restored to
    that name. *)
Lemma original_short_key (k : string) :
  k ∉ aliases → original_key (short_key k) = k.
Proof.
  intros Hk%not_alias. destruct_and!.
  unfold short_key, field_mapping, table_get.
  repeat case_decide; subst; try done.
  unfold original_key, reverse_mapping, table_get.
  repeat case_decide; subst; done.
Qed.

Lemma short_key_inj (k1 k2 : string) :
  k1 ∉ aliases → k2 ∉ aliases → short_key k1 = short_key k2 → k1 = k2.
Proof.
  intros H1 H2 Heq.
  rewrite <-(original_short_key k1), <-(original_short_key k2) by done.
  by rewrite Heq.
Qed.

End CodecRemap.

Section CodecRoundTrip.
Import Py Codec.

Lemma get_Some_key (d : dict) (k : string) (v : value) :
  get d k = Some v → k ∈ keys d.
Proof.
  intros H%get_Some_elem. apply list_elem_of_fmap. by exists (k, v).
Qed.

Lemma wf_item_eq (d : dict) (x y : string * value) :
  wf d → x ∈ d → y ∈ d → x.1 = y.1 → x = y.
Proof.
  destruct x as [k v], y as [k' v']; simpl. intros Hwf Hx Hy <-.
  apply (elem_get_Some _ _ _ Hwf) in Hx, Hy. congruence.
Qed.

Lemma get_optimize (Q : dict) (k' : string) (v' : value) :
  wf Q → (∀ k, k ∈ keys Q → k ∉ aliases) →
  get (_optimize_data_structure Q) k' = Some v' ↔
  ∃ k v, get Q k = Some v ∧ opt_value k v = Some v' ∧ k' = short_key k.
Proof.
  intros Hwf Hkeys. rewrite optimize_fold, get_fold_put.
  - split.
    + intros [([k v] & Hin & Hg)|[_ ?]]; [|done].
      exists k, v. split; [by apply elem_get_Some|].
      unfold opt_entry in Hg; simpl in Hg.
      destruct (opt_value k v); simplify_eq/=. done.
    + intros (k & v & Hget & Hv & ->). left. exists (k, v).
      split; [by apply get_Some_elem|]. unfold opt_entry; simpl. by rewrite Hv.
  - intros [k1 v1] [k2 v2] k0 w1 w2 H1 H2 Hg1 Hg2.
    apply (wf_item_eq Q); [done..|]. simpl.
    unfold opt_entry in Hg1, Hg2; simpl in Hg1, Hg2.
    destruct (opt_value k1 v1), (opt_value k2 v2); simplify_eq/=.
    apply short_key_inj; [| |done].
    + apply Hkeys, list_elem_of_fmap. by exists (k1, v1).
    + apply Hkeys, list_elem_of_fmap. by exists (k2, v2).
Qed.

Lemma wf_optimize (Q : dict) : wf (_optimize_data_structure Q).
Proof. rewrite optimize_fold. apply wf_fold_put. apply NoDup_nil_2. Qed.

Lemma get_restore_optimize (Q : dict) (k : string) (v : value) :
  wf Q → (∀ k, k ∈ keys Q → k ∉ aliases) →
  get (_restore_data_structure (_optimize_data_structure Q)) k = Some v ↔
  ∃ v0, get Q k = Some v0 ∧ opt_value k v0 = Some v.
Proof.
  intros Hwf Hkeys.
  assert (Hsrc : ∀ x, x ∈ _optimize_data_structure Q →
            ∃ k0 v0, get Q k0 = Some v0 ∧ opt_value k0 v0 = Some x.2 ∧
                     x.1 = short_key k0 ∧ k0 ∉ aliases).
  { intros [k1 v1] Hx. apply (elem_get_Some _ _ _ (wf_optimize Q)) in Hx.
    apply get_optimize in Hx as (k0 & v0 & Hget & Hv & ->); [|done..].
    exists k0, v0. split_and!; try done. by eapply Hkeys, get_Some_key. }
  rewrite restore_fold, get_fold_put.
  - split.
    + intros [(x & Hin & Hg)|[_ ?]]; [|done].
      destruct (Hsrc x Hin) as (k0 & v0 & Hget & Hv & Hk & Hal).
      unfold restore_entry in Hg. simplify_eq/=.
      rewrite Hk, original_short_key by done. eauto.
    + intros (v0 & Hget & Hv). left. exists (short_key k, v). split.
      * apply get_Some_elem, get_optimize; [done..|]. eauto.
      * unfold restore_entry; simpl. rewrite original_short_key; [done|].
        by eapply Hkeys, get_Some_key.
  - intros x y k0 w1 w2 Hx Hy Hg1 Hg2.
    apply (wf_item_eq _ _ _ (wf_optimize Q)); [done..|].
    destruct (Hsrc x Hx) as (kx & ? & _ & _ & Hkx & Hax).
    destruct (Hsrc y Hy) as (ky & ? & _ & _ & Hky & Hay).
    unfold restore_entry in Hg1, Hg2. simplify_eq/=.
    rewrite Hkx, Hky in *. rewrite !original_short_key in H by done.
    by rewrite H.
Qed.


End CodecRoundTrip.


(** The sample comes back with its price at two decimals. *)
Example round_trip_rounds_price :
  Py.get (Codec._restore_data_structure
            (Codec._optimize_data_structure Codec.sample_data))
    "current_price"
  = Some (Py.VFloat (Q2Qc (123412 # 100))).
Proof. apply (bool_decide_unpack _). vm_compute. reflexivity. Qed.


(* ===================================================================== *)
(** * Codec: delta and full updates *)
(* ===================================================================== *)

Section CodecDelta.
Import Py Codec.

Lemma delta_step_changes (prev : dict) (delta : value * dict)
    (x : string * value) :
  (delta_step prev delta x).2 = put_opt delta.2 (delta_entry prev x).
Proof.
  destruct x as [k v], delta as [t c]. unfold delta_step, delta_entry. simpl.
  destruct (decide (k = "timestamp")); [done|].
  by destruct (decide (default VNone (get prev k) ≠ v)).
Qed.

Lemma delta_fold_changes (prev : dict) (l : list (string * value))
    (delta : value * dict) :
  (foldl (delta_step prev) delta l).2
  = foldl (λ a x, put_opt a (delta_entry prev x)) delta.2 l.
Proof.
  revert delta. induction l as [|x l IH]; intros delta; [done|].
  cbn [foldl]. rewrite IH. by rewrite delta_step_changes.
Qed.

(** The loop leaves in [delta['timestamp']] the timestamp of the new
    data, or what was there when the new data has none. *)
Lemma delta_fold_timestamp (prev : dict) (l : dict) (delta : value * dict) :
  wf l →
  (foldl (delta_step prev) delta l).1 = default delta.1 (get l "timestamp").
Proof.
  unfold wf, keys. revert delta.
  induction l as [|[k v] l IH]; intros delta Hwf; csimpl; [done|].
  apply NoDup_cons in Hwf as [Hk Hwf]. rewrite IH by done.
  unfold delta_step. destruct (decide (k = "timestamp")) as [->|Hne].
  - rewrite decide_True by done. simpl.
    by rewrite (proj2 (get_None_keys l "timestamp")).
  - rewrite (decide_False (P := "timestamp" = k)) by congruence.
    by destruct (decide (default VNone (get prev k) ≠ v)).
Qed.

Lemma get_delta_changes (B Q : dict) (t : value) (k : string) (v : value) :
  wf Q →
  get (foldl (delta_step B) (t, []) Q).2 k = Some v ↔ field_changed B Q k v.
Proof.
  intros Hwf. rewrite delta_fold_changes. simpl. rewrite get_fold_put.
  - unfold field_changed, delta_entry. split.
    + intros [([k0 v0] & Hin & Hg)|[_ ?]]; [|done]. simpl in Hg.
      repeat case_decide; simplify_eq. split_and!; try done.
      by apply elem_get_Some.
    + intros (Hts & Hget & Hne). left. exists (k, v).
      split; [by apply get_Some_elem|]. simpl.
      by rewrite decide_False, decide_True by done.
  - intros x y k0 v1 v2 Hx Hy Hg1 Hg2. apply (wf_item_eq Q); [done..|].
    unfold delta_entry in Hg1, Hg2. repeat case_decide; by simplify_eq.
Qed.

Lemma truthy_get (d : dict) : truthy d = true ↔ ∃ k v, get d k = Some v.
Proof.
  destruct d as [|[k v] d]; simpl.
  - split; [done|]. by intros (? & ? & ?).
  - split; [|done]. intros _. exists k, v. by rewrite decide_True.
Qed.

(** What [create_delta_update] returns and stores, in terms of the
    field-by-field comparison of its loop. *)
Lemma create_delta_update_spec (now : string) (self : CompressionService)
    (S : string) (new_data : stock_data) :
  let Q := as_dict new_data in
  let B := baseline self S in
  let r := create_delta_update now self S new_data in
  wf Q →
  ((∀ k v, ¬ field_changed B Q k v) →
     u_type r.1 = "heartbeat" ∧ u_changes r.1 = None ∧ u_data r.1 = None) ∧
  ((∃ k v, field_changed B Q k v) →
     u_type r.1 = "delta" ∧ u_data r.1 = None ∧
     ∃ c, u_changes r.1 = Some c ∧
          ∀ k v, get c k = Some v ↔ field_changed B Q k v) ∧
  u_symbol r.1 = S ∧
  u_timestamp r.1 = default (VStr now) (get Q "timestamp") ∧
  previous_data_cache r.2 = <[S := Q]> (previous_data_cache self).
Proof.
  intros Q B r Hwf. subst r. unfold create_delta_update.
  fold Q. fold (baseline self S). fold B.
  set (t0 := default (VStr now) (get Q "timestamp")).
  destruct (truthy (foldl (delta_step B) (t0, []) Q).2) eqn:Htr; simpl.
  - apply truthy_get in Htr as (k0 & v0 & H0).
    apply get_delta_changes in H0; [|done].
    split_and!; try done.
    + intros Hno. by destruct (Hno k0 v0).
    + intros _. split_and!; try done. eexists. split; [done|].
      intros k v. by apply get_delta_changes.
    + rewrite delta_fold_timestamp by done. simpl. subst t0.
      by destruct (get Q "timestamp").
  - split_and!; try done.
    intros (k & v & Hch). apply (get_delta_changes B Q t0) in Hch; [|done].
    assert (truthy (foldl (delta_step B) (t0, []) Q).2 = true) as Ht
      by (apply truthy_get; eauto).
    congruence.
Qed.

(** When the new data has every field of the baseline, the comparison of
    the loop is the comparison of the two maps. *)
Lemma field_changed_differ (B Q : dict) (k : string) :
  (∀ k, k ≠ "timestamp" → k ∈ keys B → k ∈ keys Q) →
  (∃ v, field_changed B Q k v) ↔ k ≠ "timestamp" ∧ field_of Q k ≠ field_of B k.
Proof.
  intros Hsub. unfold field_changed, field_of. split.
  - intros (v & Hts & Hget & Hne). rewrite Hget. simpl. split; [done|congruence].
  - intros [Hts Hne]. destruct (get Q k) as [v|] eqn:Hget.
    + exists v. split_and!; [done..|]. simpl in Hne. congruence.
    + exfalso. apply Hne. simpl.
      destruct (get B k) as [w|] eqn:HB; [|done].
      apply get_Some_key, Hsub in HB; [|done]. by apply get_None_keys in Hget.
Qed.


(** After a full update the baseline of the symbol is the data, and a
    delta of the same data against it has nothing to report. *)
Lemma delta_after_full (now1 now2 : string) (self : CompressionService)
    (S : string) (data : stock_data) :
  wf (as_dict data) →
  let after_full := (create_full_update now1 self S data).2 in
  let u := (create_delta_update now2 after_full S data).1 in
  baseline after_full S = as_dict data ∧
  u_type u = "heartbeat" ∧ u_changes u = None ∧ u_data u = None.
Proof.
  intros Hwf after_full u.
  assert (HB : baseline after_full S = as_dict data).
  { unfold baseline, after_full, create_full_update. simpl.
    by rewrite lookup_insert_eq. }
  split; [done|].
  destruct (create_delta_update_spec now2 after_full S data Hwf) as (Hhb & _).
  apply Hhb. rewrite HB. intros k v (_ & Hget & Hne).
  rewrite Hget in Hne. by apply Hne.
Qed.


End CodecDelta.




(* ===================================================================== *)
(** * Circuit breaker *)
(* ===================================================================== *)

Section BreakerFacts.
Import Exn Breaker.
Context {W A : Type} (clock : W → Z).
Implicit Types (self : CircuitBreaker) (func : W → outcome A * W).

(** A failing call on a breaker that lets it through counts one failure
    and keeps the configuration. *)
Lemma call_fails_closed self func w :
  state self ≠ open → fails self func →
  ∃ e w', call clock self func w
          = (Raised e, _on_failure self (clock w'), w').
Proof.
  intros Hst Hf. unfold call, enter. rewrite decide_False by done.
  destruct (Hf w) as (e & He & Hexp). destruct (func w) as [r w']; simpl in *.
  subst r. rewrite Hexp. eauto.
Qed.

(** Failing calls on a closed breaker: the count goes up by one per call
    and the breaker opens when it reaches the threshold. *)
Lemma call_each_fails self (funcs : list (W → outcome A * W)) w :
  state self = closed →
  0 ≤ failure_count self →
  failure_count self + Z.of_nat (length funcs) ≤ failure_threshold self →
  Forall (fails self) funcs →
  funcs ≠ [] →
  let r := call_each clock self funcs w in
  failure_count r.1 = failure_count self + Z.of_nat (length funcs) ∧
  failure_threshold r.1 = failure_threshold self ∧
  recovery_timeout r.1 = recovery_timeout self ∧
  is_Some (last_failure_time r.1) ∧
  state r.1 = (if decide (failure_threshold self ≤ failure_count r.1)
                  then open else closed).
Proof.
  revert self w. induction funcs as [|func funcs IH]; intros self w; [done|].
  intros Hst Hc Hlen [Hf Hfs]%Forall_cons _. cbn [call_each].
  destruct (call_fails_closed self func w) as (e & w' & ->);
    [by rewrite Hst|done|].
  set (self' := _on_failure self (clock w')).
  cbn [length] in Hlen.
  destruct funcs as [|func2 funcs].
  - simpl. split_and!; try done. by destruct (decide _).
  - assert (state self' = closed) as Hst'.
    { unfold self'. simpl. rewrite decide_False; [done|]. simpl in Hlen. lia. }
    destruct (IH self' w') as (Hcnt & Hth & Hto & Hlast & Hstate);
      [done|simpl; lia|simpl in *; lia| |done|].
    { eapply Forall_impl; [exact Hfs|]. intros f Hff. exact Hff. }
    cbn zeta in *. rewrite Hcnt, Hth, Hto, Hstate. simpl.
    split_and!; try done. cbn [length]. lia.
    repeat case_decide; try done; simpl in *; lia.
Qed.

(** C4: from the closed state, [failure_threshold] failing calls in a row
    open the breaker; while less than [recovery_timeout] seconds have
    passed since the last failure, [call] raises the circuit-open error
    whatever the operation is, and leaves breaker and world as they
    were; once the timeout has passed the breaker lets the next call in
    half-open, and its success closes the breaker with a failure count
    of 0. *)
Theorem breaker_opens_rejects_recovers self
    (funcs : list (W → outcome A * W)) w :
  state self = closed → failure_count self = 0 →
  0 < failure_threshold self →
  length funcs = Z.to_nat (failure_threshold self) →
  Forall (fails self) funcs →
  let opened := (call_each clock self funcs w).1 in
  state opened = open ∧
  ∃ last, last_failure_time opened = Some last ∧
    (∀ func w1,
       clock w1 - last < recovery_timeout self * 1000000 →
       call clock opened func w1 = (Raised circuit_open_error, opened, w1)) ∧
    (∀ func w1,
       recovery_timeout self * 1000000 ≤ clock w1 - last →
       ∃ trial, enter opened (clock w1) = Some trial ∧
         state trial = half_open ∧
         ∀ result w2, func w1 = (Returned result, w2) →
           ∃ after, call clock opened func w1 = (Returned result, after, w2) ∧
             state after = closed ∧ failure_count after = 0).
Proof.
  intros Hst Hc Hth Hlen Hfs opened.
  destruct (call_each_fails self funcs w) as (Hcnt & Hth' & Hto & [last Hlast] & Hstate);
    [done|lia|lia|done| |].
  { intros ->. simpl in Hlen. lia. }
  fold opened in Hcnt, Hth', Hto, Hlast, Hstate.
  assert (Hopen : state opened = open).
  { rewrite Hstate. rewrite decide_True; [done|]. rewrite Hcnt. lia. }
  split; [done|]. exists last. split; [done|]. split.
  - intros func w1 Hel. unfold call, enter, _should_attempt_reset.
    rewrite decide_True, Hlast by done.
    unfold total_seconds_ge. rewrite bool_decide_eq_false_2; [done|].
    rewrite Hto. lia.
  - intros func w1 Hel.
    assert (Hent : enter opened (clock w1) = Some (with_state opened half_open)).
    { unfold enter, _should_attempt_reset. rewrite decide_True, Hlast by done.
      unfold total_seconds_ge. rewrite bool_decide_eq_true_2; [done|].
      rewrite Hto. lia. }
    eexists. split; [exact Hent|]. split; [done|].
    intros result w2 Hfunc. unfold call. rewrite Hent, Hfunc.
    eexists. split; [done|]. simpl. done.
Qed.

End BreakerFacts.

Lemma breaker_cycle_example :
  let opened := (Breaker.call_each (A := Z) id (Breaker.new 2 60)
                   [Breaker.failing_op; Breaker.failing_op] 0).1 in
  Breaker.state opened = Breaker.open ∧
  Breaker.call id opened Breaker.working_op 30000000
    = (Exn.Raised Breaker.circuit_open_error, opened, 30000000) ∧
  ∃ after, Breaker.call id opened Breaker.working_op 62000000
             = (Exn.Returned 42, after, 63000000) ∧
           Breaker.state after = Breaker.closed ∧
           Breaker.failure_count after = 0.
Proof.
  intros opened.
  destruct (breaker_opens_rejects_recovers (A := Z) id (Breaker.new 2 60)
              [Breaker.failing_op; Breaker.failing_op] 0)
    as (Hopen & last & Hlast & Hreject & Hrecover);
    [reflexivity|reflexivity|reflexivity|reflexivity| |].
  { repeat constructor; intros w; eexists; split; reflexivity. }
  fold opened in Hopen, Hlast, Hreject, Hrecover.
  assert (last = 2000000) as -> by (vm_compute in Hlast; congruence).
  split; [exact Hopen|]. split.
  - apply Hreject. unfold id. simpl. lia.
  - destruct (Hrecover Breaker.working_op 62000000) as (trial & _ & _ & Hok).
    { unfold id. simpl. lia. }
    exact (Hok 42 63000000 eq_refl).
Defined.

(* ===================================================================== *)
(** * Batch fetcher *)
(* ===================================================================== *)

Section FetcherFacts.
Import Exn Fetcher.
Context {W quote_data : Type}.
Context (clock : W → Z)
        (getQuote : string → W → outcome (option quote_data) * W)
        (make_quote : string → quote_data → Z → outcome Quote.StockQuote)
        (random : W → Qc * W)
        (sleep : Qc → W → W).
Implicit Types (e : env (W := W)) (allowed : event → Prop).

Local Abbreviation _fetch_single_quote :=
  (Fetcher._fetch_single_quote clock getQuote make_quote).
Local Abbreviation retry_loop :=
  (Fetcher.retry_loop clock getQuote make_quote random sleep).
Local Abbreviation fetch_symbol :=
  (Fetcher.fetch_symbol clock getQuote make_quote random sleep).
Local Abbreviation fetch_each :=
  (Fetcher.fetch_each clock getQuote make_quote random sleep).
Local Abbreviation fetch_batch_quotes :=
  (Fetcher.fetch_batch_quotes clock getQuote make_quote random sleep).
Local Abbreviation _is_circuit_breaker_open :=
  (Fetcher._is_circuit_breaker_open clock).

Lemma extends_refl allowed e : extends allowed e e.
Proof.
  split_and!; [done..|]. exists []. by rewrite app_nil_r.
Qed.

Lemma extends_trans allowed e1 e2 e3 :
  extends allowed e1 e2 → extends allowed e2 e3 → extends allowed e1 e3.
Proof.
  intros (Hc1 & Hb1 & n1 & Ht1 & Ha1) (Hc2 & Hb2 & n2 & Ht2 & Ha2).
  split_and!; [congruence..|]. exists (n1 ++ n2)%list.
  split; [by rewrite Ht2, Ht1, app_assoc|by apply Forall_app].
Qed.

Lemma extends_mono (allowed allowed' : event → Prop) e e' :
  (∀ ev, allowed ev → allowed' ev) →
  extends allowed e e' → extends allowed' e e'.
Proof.
  intros Himp (Hc & Hb & new & Ht & Ha). split_and!; [done..|].
  exists new. split; [done|]. eapply Forall_impl; eauto.
Qed.

Lemma extends_emit allowed e ev :
  allowed ev →
  extends allowed e {| fetcher := fetcher e; world := world e;
                       trace := (trace e ++ [ev])%list |}.
Proof.
  intros Hev. split_and!; [done..|]. exists [ev]. split; [done|].
  by apply Forall_singleton.
Qed.

Lemma returns_ret {A} (a : A) e (P : A → env → Prop) :
  P a e → returns (ret a) e P.
Proof. intros HP. by exists a, e. Qed.

Lemma returns_bind {A B} (m : M A) (k : A → M B) e
    (Q : A → env → Prop) (P : B → env → Prop) :
  returns m e Q →
  (∀ a e', Q a e' → returns (k a) e' P) →
  returns (bind m k) e P.
Proof.
  intros (a & e' & Hm & HQ) Hk. unfold returns, bind. rewrite Hm.
  by apply Hk.
Qed.

Lemma returns_mono {A} (m : M A) e (P Q : A → env → Prop) :
  returns m e P → (∀ a e', P a e' → Q a e') → returns m e Q.
Proof. intros (a & e' & Hm & HP) Himp. exists a, e'. eauto. Qed.

(** [_fetch_single_quote] raises nothing: it asks the API for the symbol
    at most once and turns every failure into [None]. *)
Lemma fetch_single_returns (s : string) e :
  returns (_fetch_single_quote s) e
    (λ _ e', extends (λ ev, ev = GetQuote s) e e').
Proof.
  unfold returns, Fetcher._fetch_single_quote, try_except, bind, get_self.
  simpl. destruct (bse_api_breaker (fetcher e)) as [cb|].
  - unfold via_breaker, Breaker.call.
    destruct (Breaker.enter cb (clock (world e))) as [cb'|]; simpl.
    + unfold call_getQuote, bind, emit_event, on_world. simpl.
      destruct (getQuote s (world e)) as [[[d|]|x] w]; simpl.
      * unfold now, lift_outcome. simpl.
        destruct (make_quote s d (clock w)); simpl; eexists _, _;
          (split; [done|]); split_and!; try done;
          exists [GetQuote s]; split; try done; by apply Forall_singleton.
      * eexists _, _. split; [done|]. split_and!; try done.
        exists [GetQuote s]. split; try done. by apply Forall_singleton.
      * destruct (Breaker.expected_exception cb' x); simpl;
          eexists _, _; (split; [done|]); split_and!; try done;
          exists [GetQuote s]; split; try done; by apply Forall_singleton.
    + eexists _, _. split; [done|]. split_and!; try done.
      exists []. by rewrite app_nil_r.
  - unfold call_getQuote, bind, emit_event, on_world. simpl.
    destruct (getQuote s (world e)) as [[[d|]|x] w]; simpl.
    + unfold now, lift_outcome. simpl.
      destruct (make_quote s d (clock w)); simpl; eexists _, _;
        (split; [done|]); by apply extends_emit.
    + eexists _, _. split; [done|]. by apply extends_emit.
    + eexists _, _. split; [done|]. by apply extends_emit.
Qed.

Lemma record_success_returns (s : string) e :
  returns (record_success clock s) e (λ _ e', extends (for_symbol s) e e').
Proof.
  unfold returns, record_success, bind, now, modify_self. simpl.
  eexists _, _. split; [done|]. split_and!; simpl.
  - by destruct (watched_symbols (fetcher e) !! s).
  - by destruct (watched_symbols (fetcher e) !! s).
  - exists []. by rewrite app_nil_r.
Qed.

Lemma record_failure_returns (s : string) (err : option string) e :
  returns (record_failure s err) e (λ _ e', extends (for_symbol s) e e').
Proof.
  unfold returns, record_failure, modify_self. simpl.
  eexists _, _. split; [done|]. split_and!; simpl.
  - by destruct (watched_symbols (fetcher e) !! s).
  - by destruct (watched_symbols (fetcher e) !! s).
  - exists []. by rewrite app_nil_r.
Qed.

Lemma retry_sleep_returns (s : string) (attempt : Z) e :
  returns (retry_sleep random sleep attempt) e
    (λ _ e', extends (for_symbol s) e e').
Proof.
  unfold returns, retry_sleep, bind, get_self, on_world, emit_event. simpl.
  destruct (random (world e)) as [r w]. simpl.
  eexists _, _. split; [done|]. split_and!; [done..|]. simpl.
  eexists [_]. split; [done|]. apply Forall_singleton. right. eauto.
Qed.

(** The retry loop raises nothing; it ends with a success that wrote the
    quote of the symbol, or without success and with the result as it
    was. *)
Lemma retry_loop_returns (s : string) (remaining : nat) :
  ∀ (result : BatchResult) (attempt : Z) (last : option string) e,
  returns (retry_loop s result attempt remaining last) e
    (λ out e', extends (for_symbol s) e e' ∧
       if out.1.2 then ∃ q, out.1.1 = set_successful result s q
       else out.1.1 = result).
Proof.
  induction remaining as [|n IH]; intros result attempt last e.
  - apply returns_ret. split; [apply extends_refl|done].
  - cbn [Fetcher.retry_loop].
    eapply returns_bind with
      (Q := λ r e', extends (for_symbol s) e e' ∧
              match r with
              | inl result' => ∃ q, result' = set_successful result s q
              | inr _ => True
              end).
    + destruct (fetch_single_returns s e) as (quote & e1 & Hf & Hext).
      apply (extends_mono _ (for_symbol s)) in Hext; [|by left].
      unfold returns, try_except, bind. rewrite Hf.
      destruct quote as [q|].
      * destruct (record_success_returns s e1) as ([] & e2 & Hr & Hext2).
        rewrite Hr. eexists _, _. split; [done|].
        split; [by eapply extends_trans|eauto].
      * eexists _, _. split; [done|]. done.
    + intros [result'|err] e1 [Hext Hres].
      * apply returns_ret. simpl. done.
      * eapply returns_bind with (Q := λ self e', e' = e1).
        { by eexists _, _. }
        intros self ? ->.
        eapply returns_bind with (Q := λ _ e', extends (for_symbol s) e e').
        { destruct (decide (attempt < max_retries self)).
          - eapply returns_mono; [apply (retry_sleep_returns s)|].
            intros ? e2 Hext2. by eapply extends_trans.
          - by apply returns_ret. }
        intros ? e2 Hext2. eapply returns_mono; [apply IH|].
        intros out e3 [Hext3 Hout]. split; [|done].
        by eapply extends_trans.
Qed.

Lemma covered_set_successful (r : BatchResult) (s : string) q :
  covered (set_successful r s q) = {[s]} ∪ covered r.
Proof. unfold covered. simpl. rewrite dom_insert_L. set_solver. Qed.

Lemma covered_set_failed (r : BatchResult) (s : string) (err : string) :
  covered (set_failed r s err) = {[s]} ∪ covered r.
Proof. unfold covered. simpl. rewrite dom_insert_L. set_solver. Qed.

(** One round of the batch loop raises nothing and records the symbol as
    successful or as failed. *)
Lemma fetch_symbol_returns (s : string) (result : BatchResult) e :
  returns (fetch_symbol s result) e
    (λ result' e', extends (for_symbol s) e e' ∧
       covered result' = {[s]} ∪ covered result).
Proof.
  unfold Fetcher.fetch_symbol.
  eapply returns_bind with (Q := λ self e', e' = e); [by eexists _, _|].
  intros self ? ->.
  eapply returns_bind; [apply retry_loop_returns|].
  intros [[result' success] last] e1 [Hext Hout]. simpl in *.
  destruct success.
  - destruct Hout as [q ->]. apply returns_ret.
    split; [done|apply covered_set_successful].
  - subst result'.
    eapply returns_bind; [apply record_failure_returns|].
    intros ? e2 Hext2. apply returns_ret.
    split; [by eapply extends_trans|apply covered_set_failed].
Qed.

Lemma fetch_each_returns (l : list string) :
  ∀ (result : BatchResult) e,
  returns (fetch_each l result) e
    (λ result' e', extends (for_symbols l) e e' ∧
       covered result' = list_to_set l ∪ covered result).
Proof.
  induction l as [|s l IH]; intros result e.
  - apply returns_ret. split; [apply extends_refl|set_solver].
  - cbn [Fetcher.fetch_each].
    eapply returns_bind; [apply fetch_symbol_returns|].
    intros r1 e1 [Hext1 Hcov1].
    eapply returns_mono; [apply IH|].
    intros r2 e2 [Hext2 Hcov2]. split.
    + eapply extends_trans.
      * eapply extends_mono; [|exact Hext1].
        intros ev [->|?]; [left; exists s; split; [left|done]|by right].
      * eapply extends_mono; [|exact Hext2].
        intros ev [(s' & Hs' & ->)|?]; [left; exists s'; split; [by right|done]|by right].
    + rewrite Hcov2, Hcov1. set_solver.
Qed.

(** The callbacks are invoked one after the other, each once and with
    the same quotes, whatever any of them raises. *)
Lemma notify_returns (cbs : list callback) :
  ∀ (index : nat) quotes e,
  returns (notify cbs index quotes) e
    (λ _ e', fetcher e' = fetcher e ∧
       trace e' = (trace e ++ imap (λ i _, Callback (index + i) quotes) cbs)%list).
Proof.
  induction cbs as [|cb cbs IH]; intros index quotes e.
  - apply returns_ret. by rewrite app_nil_r.
  - cbn [Fetcher.notify].
    eapply returns_bind with
      (Q := λ _ e', fetcher e' = fetcher e ∧
              trace e' = (trace e ++ [Callback index quotes])%list).
    + unfold returns, try_except, bind, emit_event, on_world, ret. simpl.
      destruct (cb quotes (world e)) as [[[]|x] w]; by eexists _, _.
    + intros ? e1 [Hf1 Ht1]. eapply returns_mono; [apply IH|].
      intros ? e2 [Hf2 Ht2]. split; [congruence|].
      rewrite Ht2, Ht1, <-app_assoc. f_equal. rewrite imap_cons.
      cbn [app]. f_equal; [f_equal; lia|].
      apply imap_ext. intros i x _. simpl. f_equal. lia.
Qed.

(** The breaker test of the fetcher touches only its own two fields. *)
Lemma is_circuit_breaker_open_returns e :
  returns _is_circuit_breaker_open e
    (λ _ e', world e' = world e ∧ trace e' = trace e ∧
       update_callbacks (fetcher e') = update_callbacks (fetcher e) ∧
       max_batch_size (fetcher e') = max_batch_size (fetcher e)).
Proof.
  unfold returns, Fetcher._is_circuit_breaker_open, bind, get_self, now,
    modify_self, ret. simpl.
  destruct (decide (circuit_breaker_failures (fetcher e)
                    < circuit_breaker_threshold (fetcher e))); simpl.
  - by eexists _, _.
  - destruct (circuit_breaker_reset_time (fetcher e)) as [t|]; simpl.
    + destruct (decide (t ≤ clock (world e))); simpl; by eexists _, _.
    + by eexists _, _.
Qed.

Lemma all_failed_lookup (l : list string) (msg : string) (s : string) :
  all_failed l msg !! s = if decide (s ∈ l) then Some msg else None.
Proof.
  unfold all_failed.
  assert (H : ∀ m0 : gmap string string,
            foldl (λ m symbol, <[symbol := msg]> m) m0 l !! s
            = if decide (s ∈ l) then Some msg else m0 !! s).
  { induction l as [|x l IH]; intros m0; cbn [foldl].
    - destruct (decide (s ∈ [])) as [Hin|_]; [|done].
      by apply elem_of_nil in Hin.
    - rewrite IH. destruct (decide (s ∈ l)) as [Hin|Hnin].
      + destruct (decide (s ∈ x :: l)) as [_|Hn]; [done|].
        exfalso. apply Hn. by right.
      + destruct (decide (s = x)) as [->|Hne].
        * rewrite lookup_insert_eq.
          destruct (decide (x ∈ x :: l)) as [_|Hn]; [done|].
          exfalso. apply Hn. left.
        * rewrite lookup_insert_ne by done.
          destruct (decide (s ∈ x :: l)) as [Hn|_]; [|done].
          by apply elem_of_cons in Hn as [?|?]. }
  rewrite H. by rewrite lookup_empty.
Qed.

Lemma callback_events_app (tr1 tr2 : list event) :
  callback_events (tr1 ++ tr2) = (callback_events tr1 ++ callback_events tr2)%list.
Proof. unfold callback_events. apply omap_app. Qed.

Lemma callback_events_for_symbols (l : list string) (tr : list event) :
  Forall (for_symbols l) tr → callback_events tr = [].
Proof.
  induction 1 as [|ev tr Hev _ IH]; [done|]. unfold callback_events in *.
  csimpl. rewrite IH. by destruct Hev as [(? & _ & ->)|[? ->]].
Qed.

Lemma callback_events_imap (cbs : list (@callback W)) (index : nat) quotes :
  callback_events (imap (λ i _, Callback (index + i) quotes) cbs)
  = imap (λ i _, ((index + i)%nat, quotes)) cbs.
Proof.
  revert index. induction cbs as [|cb cbs IH]; intros index; [done|].
  rewrite !imap_cons. unfold callback_events in *. csimpl. f_equal.
  erewrite imap_ext; [rewrite (IH (S index))|].
  - apply imap_ext. intros i x _. simpl. f_equal. lia.
  - intros i x _. simpl. f_equal. lia.
Qed.

Lemma getQuote_events_elem (tr : list event) (s : string) :
  s ∈ getQuote_events tr ↔ GetQuote s ∈ tr.
Proof.
  unfold getQuote_events. rewrite list_elem_of_omap. split.
  - intros (ev & Hin & Hev). destruct ev; simplify_eq. done.
  - intros Hin. exists (GetQuote s). done.
Qed.

(** A batch with the breaker closed: nothing is raised, the result
    speaks of the symbols of the batch, the API is asked for them only,
    and then the callbacks are invoked when some quote was fetched. *)
Lemma fetch_batch_not_open (symbols : list string) e e0 :
  _is_circuit_breaker_open e = (Returned false, e0) →
  returns (fetch_batch_quotes symbols) e
    (λ res e',
       covered res = list_to_set (batch_of (fetcher e) symbols) ∧
       ∃ new,
         trace e' = (trace e ++ new
                     ++ if decide (successful_quotes res = ∅) then []
                        else imap (λ i _, Callback i (successful_quotes res))
                               (update_callbacks (fetcher e)))%list ∧
         Forall (for_symbols (batch_of (fetcher e) symbols)) new).
Proof.
  intros Hopen.
  destruct (is_circuit_breaker_open_returns e)
    as (b & e0' & Hopen' & Hw0 & Ht0 & Hcb0 & Hbs0).
  rewrite Hopen in Hopen'. injection Hopen' as <- <-.
  unfold Fetcher.fetch_batch_quotes.
  eapply returns_bind with (Q := λ _ e', e' = e); [by eexists _, _|].
  intros start ? ->.
  eapply returns_bind with (Q := λ _ e', e' = e); [by eexists _, _|].
  intros ftime ? ->.
  eapply returns_bind with (Q := λ b e', b = false ∧ e' = e0);
    [by eexists _, _|].
  intros ? ? [-> ->].
  eapply returns_bind with (Q := λ self e', self = fetcher e0 ∧ e' = e0);
    [by eexists _, _|].
  intros ? ? [-> ->].
  fold (batch_of (fetcher e0) symbols).
  assert (batch_of (fetcher e0) symbols = batch_of (fetcher e) symbols) as ->.
  { unfold batch_of. by rewrite Hbs0. }
  set (L := batch_of (fetcher e) symbols).
  eapply returns_bind; [apply fetch_each_returns|].
  intros res e1 [(Hcb1 & Hbs1 & new & Ht1 & Hnew) Hcov]. cbn beta in *.
  eapply returns_bind with
    (Q := λ _ e', update_callbacks (fetcher e') = update_callbacks (fetcher e1)
                  ∧ trace e' = trace e1).
  { unfold returns, modify_self. by eexists _, _. }
  intros ? e2 [Hcb2 Ht2].
  eapply returns_bind with (Q := λ _ e', e' = e2); [by eexists _, _|].
  intros endt ? ->.
  eapply returns_bind with (Q := λ self e', self = fetcher e2 ∧ e' = e2);
    [by eexists _, _|].
  intros ? ? [-> ->]. cbn [successful_quotes].
  assert (Hcbs : update_callbacks (fetcher e2) = update_callbacks (fetcher e))
    by congruence.
  assert (Hcov' : covered res = list_to_set L).
  { rewrite Hcov. unfold covered. simpl. rewrite !dom_empty_L. set_solver. }
  destruct (decide (successful_quotes res ≠ ∅ ∧ update_callbacks (fetcher e2) ≠ []))
    as [[Hne Hcbne]|Hno].
  - eapply returns_bind; [apply notify_returns|].
    intros ? e3 [Hf3 Ht3]. apply returns_ret. simpl.
    split; [done|]. exists new. split; [|done].
    rewrite decide_False by done.
    rewrite Ht3, Ht2, Ht1, Ht0, Hcbs, <-app_assoc. done.
  - eapply returns_bind with (Q := λ _ e', e' = e2); [by eexists _, _|].
    intros ? ? ->. apply returns_ret. simpl.
    split; [done|]. exists new. split; [|done].
    rewrite Ht2, Ht1, Ht0. f_equal.
    destruct (decide (successful_quotes res = ∅)) as [|Hne];
      [by rewrite app_nil_r|].
    destruct (update_callbacks (fetcher e2)) eqn:Hcbe.
    + rewrite <-Hcbs. simpl. by rewrite app_nil_r.
    + exfalso. apply Hno. done.
Qed.

(** With the breaker of the fetcher open, the batch ends at once. *)
Lemma fetch_batch_open (symbols : list string) e :
  (_is_circuit_breaker_open e).1 = Returned true →
  returns (fetch_batch_quotes symbols) e
    (λ res e',
       successful_quotes res = ∅ ∧
       (∀ s, failed_symbols res !! s
             = if decide (s ∈ symbols) then Some circuit_open_message
               else None) ∧
       trace e' = trace e ∧ world e' = world e).
Proof.
  intros Hopen.
  destruct (is_circuit_breaker_open_returns e)
    as (b & e0 & Hopen' & Hw0 & Ht0 & _).
  rewrite Hopen' in Hopen. simpl in Hopen. injection Hopen as ->.
  unfold Fetcher.fetch_batch_quotes.
  eapply returns_bind with (Q := λ _ e', e' = e); [by eexists _, _|].
  intros start ? ->.
  eapply returns_bind with (Q := λ _ e', e' = e); [by eexists _, _|].
  intros ftime ? ->.
  eapply returns_bind with (Q := λ b e', b = true ∧ e' = e0);
    [by eexists _, _|].
  intros ? ? [-> ->]. apply returns_ret. simpl.
  split_and!; [done| |done..]. intros s. apply all_failed_lookup.
Qed.

(** C10: with its breaker open, [fetch_batch_quotes] returns before the
    truncation: no quote, every symbol of the input, also beyond
    [max_batch_size], failed with the circuit-open message, and nothing
    fetched: the trace and the world are as they were. *)
Theorem breaker_open_fails_all_symbols (symbols : list string) e :
  (_is_circuit_breaker_open e).1 = Returned true →
  returns (fetch_batch_quotes symbols) e
    (λ res e',
       successful_quotes res = ∅ ∧
       (∀ s, failed_symbols res !! s
             = if decide (s ∈ symbols) then Some circuit_open_message
               else None) ∧
       trace e' = trace e ∧ world e' = world e).
Proof. apply fetch_batch_open. Qed.

(** C5: an input longer than [max_batch_size], with the breaker not
    open: [fetch_batch_quotes] raises nothing, asks the API only for
    symbols among the first [max_batch_size] ones, and the symbols of the
    result, successful or failed, are those first ones. *)
Theorem oversize_batch_is_truncated (symbols : list string) e :
  (_is_circuit_breaker_open e).1 = Returned false →
  0 ≤ max_batch_size (fetcher e) < Z.of_nat (length symbols) →
  returns (fetch_batch_quotes symbols) e
    (λ res e',
       let first := take (Z.to_nat (max_batch_size (fetcher e))) symbols in
       (∀ s, s ∈ dom (successful_quotes res) ∨ s ∈ dom (failed_symbols res)
             ↔ s ∈ first) ∧
       ∃ new, trace e' = (trace e ++ new)%list ∧
              ∀ s, s ∈ getQuote_events new → s ∈ first).
Proof.
  intros Hopen [Hge Hlt].
  destruct (_is_circuit_breaker_open e) as [b e0] eqn:Hrun.
  simpl in Hopen. subst b.
  eapply returns_mono; [by eapply fetch_batch_not_open|].
  intros res e' (Hcov & new & Htr & Hnew). cbn zeta.
  assert (Hbatch : batch_of (fetcher e) symbols
                   = take (Z.to_nat (max_batch_size (fetcher e))) symbols).
  { unfold batch_of, Py.slice_to. by rewrite !decide_True by lia. }
  rewrite Hbatch in Hcov, Hnew. split.
  - intros s. rewrite <-!elem_of_union. fold (covered res). rewrite Hcov.
    by rewrite elem_of_list_to_set.
  - eexists. split; [exact Htr|]. intros s Hs.
    apply getQuote_events_elem in Hs.
    apply elem_of_app in Hs as [Hs|Hs].
    + apply (proj1 (Forall_forall _ _) Hnew) in Hs.
      destruct Hs as [(s' & Hin & Heq)|[d Heq]]; by simplify_eq.
    + destruct (decide (successful_quotes res = ∅)).
      * by apply elem_of_nil in Hs.
      * apply list_elem_of_lookup in Hs as [i Hi].
        apply list_lookup_imap_Some in Hi as (cb & _ & Heq). done.
Qed.


End FetcherFacts.

Lemma oversize_batch_example :
  Fetcher.returns (Fetcher.demo_fetch ["GOOD"; "BAD"; "UGLY"])
    (Fetcher.demo_env 0)
    (λ res e',
       (∀ s, s ∈ dom (Fetcher.successful_quotes res)
             ∨ s ∈ dom (Fetcher.failed_symbols res)
             ↔ s ∈ ["GOOD"; "BAD"]) ∧
       ∃ new, Fetcher.trace e' = ([] ++ new)%list ∧
              ∀ s, s ∈ Fetcher.getQuote_events new → s ∈ ["GOOD"; "BAD"]).
Proof.
  apply (oversize_batch_is_truncated id Fetcher.demo_getQuote
           Fetcher.demo_make_quote Fetcher.demo_random Fetcher.demo_sleep
           ["GOOD"; "BAD"; "UGLY"] (Fetcher.demo_env 0)).
  - reflexivity.
  - simpl. lia.
Defined.

Lemma breaker_open_example :
  Fetcher.returns (Fetcher.demo_fetch ["GOOD"; "BAD"; "UGLY"])
    (Fetcher.demo_env 5)
    (λ res e',
       Fetcher.successful_quotes res = ∅ ∧
       (∀ s, Fetcher.failed_symbols res !! s
             = if decide (s ∈ ["GOOD"; "BAD"; "UGLY"])
               then Some Fetcher.circuit_open_message else None) ∧
       Fetcher.trace e' = [] ∧ Fetcher.world e' = 0).
Proof.
  apply (breaker_open_fails_all_symbols id Fetcher.demo_getQuote
           Fetcher.demo_make_quote Fetcher.demo_random Fetcher.demo_sleep
           ["GOOD"; "BAD"; "UGLY"] (Fetcher.demo_env 5)).
  reflexivity.
Defined.


(* ===================================================================== *)
(** * Subscription registry *)
(* ===================================================================== *)

Section RegistryFacts.
Import Registry.
Implicit Types (cs ss : gmap string (gset string)) (C S : string).

Lemma at_key_insert ss S S' (X : gset string) :
  at_key (<[S := X]> ss) S' = if decide (S = S') then X else at_key ss S'.
Proof.
  unfold at_key. rewrite lookup_insert. by destruct (decide (S = S')).
Qed.

Lemma at_key_delete ss S S' :
  at_key (delete S ss) S' = if decide (S = S') then ∅ else at_key ss S'.
Proof.
  unfold at_key. rewrite lookup_delete. by destruct (decide (S = S')).
Qed.

Lemma elem_add_subscriber ss C S c s :
  C ∈ at_key (add_subscriber c ss s) S ↔ C ∈ at_key ss S ∨ (S = s ∧ C = c).
Proof.
  unfold add_subscriber. rewrite at_key_insert.
  destruct (decide (s = S)) as [->|Hne].
  - destruct (decide (S ∈ dom ss)) as [Hin|Hnin]; [set_solver|].
    rewrite at_key_insert, decide_True by done.
    apply not_elem_of_dom in Hnin. unfold at_key. rewrite Hnin. set_solver.
  - destruct (decide (s ∈ dom ss)).
    + naive_solver.
    + rewrite at_key_insert, decide_False by done. naive_solver.
Qed.

Lemma no_empty_add_subscriber ss c s :
  no_empty ss → no_empty (add_subscriber c ss s).
Proof.
  intros Hne S X. unfold add_subscriber. rewrite lookup_insert.
  destruct (decide (s = S)) as [->|].
  - intros [= <-]. set_solver.
  - destruct (decide (s ∈ dom ss)); [apply Hne|].
    rewrite lookup_insert_ne by done. apply Hne.
Qed.

Lemma elem_remove_subscriber ss C S c s :
  C ∈ at_key (remove_subscriber c ss s) S
  ↔ C ∈ at_key ss S ∧ ¬ (S = s ∧ C = c).
Proof.
  unfold remove_subscriber. destruct (decide (s ∈ dom ss)) as [Hin|Hnin].
  - rewrite at_key_insert, (decide_True (P := s = s)) by done.
    destruct (decide (at_key ss s ∖ {[c]} = ∅)) as [Hem|Hnem].
    + rewrite at_key_delete, at_key_insert.
      destruct (decide (s = S)) as [->|]; set_solver.
    + rewrite at_key_insert. destruct (decide (s = S)) as [->|]; set_solver.
  - apply not_elem_of_dom in Hnin.
    destruct (decide (S = s)) as [->|]; [|naive_solver].
    unfold at_key. rewrite Hnin. set_solver.
Qed.

Lemma no_empty_remove_subscriber ss c s :
  no_empty ss → no_empty (remove_subscriber c ss s).
Proof.
  intros Hne S X. unfold remove_subscriber.
  destruct (decide (s ∈ dom ss)); [|apply Hne].
  rewrite at_key_insert, (decide_True (P := s = s)) by done.
  destruct (decide (at_key ss s ∖ {[c]} = ∅)) as [Hem|Hnem].
  - rewrite lookup_delete. destruct (decide (s = S)); [done|].
    rewrite lookup_insert_ne by done. apply Hne.
  - rewrite lookup_insert. destruct (decide (s = S)); [|apply Hne].
    by intros [= <-].
Qed.

Lemma elem_fold_add ss C S c (l : list string) :
  C ∈ at_key (foldl (add_subscriber c) ss l) S
  ↔ C ∈ at_key ss S ∨ (S ∈ l ∧ C = c).
Proof.
  revert ss. induction l as [|s l IH]; intros ss; simpl.
  - set_solver.
  - rewrite IH, elem_add_subscriber. set_solver.
Qed.

Lemma elem_fold_remove ss C S c (l : list string) :
  C ∈ at_key (foldl (remove_subscriber c) ss l) S
  ↔ C ∈ at_key ss S ∧ ¬ (S ∈ l ∧ C = c).
Proof.
  revert ss. induction l as [|s l IH]; intros ss; simpl.
  - set_solver.
  - rewrite IH, elem_remove_subscriber. set_solver.
Qed.

Lemma no_empty_fold_add ss c (l : list string) :
  no_empty ss → no_empty (foldl (add_subscriber c) ss l).
Proof.
  revert ss. induction l as [|s l IH]; intros ss Hne; simpl; [done|].
  by apply IH, no_empty_add_subscriber.
Qed.

Lemma no_empty_fold_remove ss c (l : list string) :
  no_empty ss → no_empty (foldl (remove_subscriber c) ss l).
Proof.
  revert ss. induction l as [|s l IH]; intros ss Hne; simpl; [done|].
  by apply IH, no_empty_remove_subscriber.
Qed.

Lemma unsubscribe_fold cs ss c (l : list string) :
  (foldl (unsubscribe_step c) (cs, ss) l).2
  = foldl (remove_subscriber c) ss l ∧
  ∀ C S, S ∈ at_key (foldl (unsubscribe_step c) (cs, ss) l).1 C
         ↔ S ∈ at_key cs C ∧ ¬ (C = c ∧ S ∈ l).
Proof.
  revert cs ss. induction l as [|s l IH]; intros cs ss; simpl.
  - split; [done|]. set_solver.
  - unfold unsubscribe_step at 2 4. simpl.
    destruct (IH (<[c := at_key cs c ∖ {[s]}]> cs) (remove_subscriber c ss s))
      as [-> Helem].
    split; [done|]. intros C S. rewrite Helem, at_key_insert.
    destruct (decide (c = C)) as [->|]; set_solver.
Qed.

(** Giving an absent client an empty set changes no subscription. *)
Lemma at_key_ensure cs c C :
  at_key (if decide (c ∈ dom cs) then cs else <[c := ∅]> cs) C = at_key cs C.
Proof.
  destruct (decide (c ∈ dom cs)) as [Hin|Hnin]; [done|].
  rewrite at_key_insert. destruct (decide (c = C)) as [<-|]; [|done].
  apply not_elem_of_dom in Hnin. unfold at_key. by rewrite Hnin.
Qed.

Lemma subscription_keeps_consistent now self c symbols :
  consistent self → consistent (handle_client_subscription now self c symbols).
Proof.
  intros [Hrel Hne]. unfold handle_client_subscription.
  destruct (decide (c ∈ connected_clients self)) as [Hconn|]; [|done].
  unfold send_to_client. rewrite (decide_True (P := c ∈ _)) by done.
  unfold consistent. simpl. split.
  - intros C S. rewrite elem_fold_add, at_key_insert, at_key_ensure.
    rewrite elem_of_elements, elem_of_difference, elem_of_list_to_set.
    rewrite at_key_ensure.
    pose proof (Hrel C S) as HCS. pose proof (Hrel c S) as HcS.
    destruct (decide (c = C)) as [->|Hne'].
    + rewrite elem_of_union, elem_of_list_to_set.
      destruct (decide (S ∈ at_key (client_subscriptions self) C)); naive_solver.
    + naive_solver.
  - by apply no_empty_fold_add.
Qed.

Lemma unsubscription_keeps_consistent self c symbols :
  consistent self → consistent (_unsubscribe_client_from_symbols self c symbols).
Proof.
  intros [Hrel Hne]. unfold _unsubscribe_client_from_symbols.
  destruct (decide (c ∈ dom (client_subscriptions self))); [|done].
  destruct (unsubscribe_fold (client_subscriptions self)
              (symbol_subscribers self) c symbols) as [Hss Hcs].
  unfold consistent. simpl. rewrite Hss. split.
  - intros C S. rewrite Hcs, elem_fold_remove. specialize (Hrel C S).
    set_solver.
  - by apply no_empty_fold_remove.
Qed.

Lemma cleanup_keeps_consistent self c :
  consistent self → consistent (_cleanup_client self c).
Proof.
  intros [Hrel Hne]. unfold _cleanup_client.
  destruct (decide (c ∈ dom (client_subscriptions self))) as [Hin|Hnin];
    [|done].
  unfold consistent. simpl. split.
  - intros C S. rewrite elem_fold_remove, at_key_delete.
    setoid_rewrite elem_of_elements.
    pose proof (Hrel C S). pose proof (Hrel c S).
    destruct (decide (c = C)) as [->|]; set_solver.
  - by apply no_empty_fold_remove.
Qed.

(** C6: every finite interleaving of subscriptions, unsubscriptions and
    disconnections keeps the registry consistent: a symbol is among the
    subscriptions of a client exactly when the client is among the
    subscribers of the symbol, and no symbol is kept with an empty set
    of subscribers. *)
Theorem interleavings_keep_registry_consistent
    (self : WebSocketManager) (calls : list call) :
  consistent self → consistent (run_calls self calls).
Proof.
  unfold run_calls. revert self.
  induction calls as [|c calls IH]; intros self Hinv; simpl; [done|].
  apply IH. destruct c as [now c symbols|c symbols|c]; simpl.
  - by apply subscription_keeps_consistent.
  - by apply unsubscription_keeps_consistent.
  - by apply cleanup_keeps_consistent.
Qed.

End RegistryFacts.

Lemma registry_interleaving_example :
  Registry.consistent
    (Registry.run_calls Registry.two_clients
       [ Registry.Subscribe "09:15:00" "c1" ["R"; "T"];
         Registry.Subscribe "09:15:01" "c2" ["R"];
         Registry.Unsubscribe "c1" ["T"; "X"];
         Registry.Disconnect "c2";
         Registry.Subscribe "09:15:02" "c2" ["R"] ]).
Proof.
  apply interleavings_keep_registry_consistent.
  split.
  - intros C S. unfold Registry.two_clients, Registry.handle_connect. simpl.
    rewrite !at_key_insert. unfold Registry.at_key.
    rewrite !lookup_empty. simpl. repeat case_decide; set_solver.
  - intros S X. unfold Registry.two_clients, Registry.handle_connect. simpl.
    by rewrite lookup_empty.
Defined.

(* ===================================================================== *)
(** * Broadcaster *)
(* ===================================================================== *)

Section BroadcasterFacts.
Import Registry Broadcaster.
Context (json_len : message → option Z)
        (packed_update : Codec.update → string * option (Z * Z))
        (packed_batch : list Codec.update → string * option (Z * Z)).
Implicit Types (self : OptimizedWebSocketService) (c symbol : string).

Local Abbreviation _send_update_to_client :=
  (Broadcaster._send_update_to_client json_len packed_update packed_batch).
Local Abbreviation send_optimized_stock_update :=
  (Broadcaster.send_optimized_stock_update json_len packed_update packed_batch).
Local Abbreviation send_step :=
  (Broadcaster.send_step json_len packed_update packed_batch).

Lemma delta_update_type now cs symbol data :
  Codec.u_type (Codec.create_delta_update now cs symbol data).1 ≠ "full" ∧
  Codec.u_data (Codec.create_delta_update now cs symbol data).1 = None.
Proof.
  unfold Codec.create_delta_update.
  by destruct (Py.truthy _).
Qed.

(** A client without delta support, or a forced full update, gets a full
    update; a client with delta support gets what [create_delta_update]
    makes of the baseline, whether there is one or not. *)
Lemma encode_choice now self c symbol data force :
  let enc := encode_for_client now self c symbol data force in
  (capability self c supports_delta_updates = true ∧ force = false →
     enc = Codec.create_delta_update now (compression_service self) symbol data
     ∧ Codec.u_type enc.1 ≠ "full") ∧
  (capability self c supports_delta_updates = false ∨ force = true →
     enc = Codec.create_full_update now (compression_service self) symbol data
     ∧ Codec.u_type enc.1 = "full").
Proof.
  unfold encode_for_client. split.
  - intros [-> ->]. simpl. split; [done|]. apply delta_update_type.
  - intros [->| ->]; [done|]. rewrite andb_false_r. done.
Qed.

(** A client with batch support: the update joins its pending batch,
    which is sent as one batch message when it has reached the maximum
    size. *)
Lemma send_update_batched now self c symbol data force :
  capability self c supports_batch_updates = true →
  let enc := encode_for_client now self c symbol data force in
  let pending := (default [] (pending_batches self !! c) ++ [enc.1])%list in
  let r := _send_update_to_client now self c symbol data force in
  if decide (max_batch_size (batch_config self) ≤ Z.of_nat (length pending))
  then pending_batches r = <[c := []]> (<[c := pending]> (pending_batches self)) ∧
       ∃ msg, socketio (websocket_manager r)
              = (socketio (websocket_manager self)
                 ++ [{| em_event := "batch_update"; em_room := c;
                        em_message := msg |}])%list ∧
              (msg = BatchUpdate pending (length pending) now ∨
               ∃ text, msg = BatchUpdateCompressed text (length pending) now)
  else r = set_pending_batches (set_compression_service self enc.2)
             (<[c := pending]> (pending_batches self)).
Proof.
  intros Hbatch enc pending r. subst r.
  unfold Broadcaster._send_update_to_client. fold enc.
  destruct enc as [u cs] eqn:Henc. simpl in pending.
  assert (capability (set_compression_service self cs) c supports_batch_updates
          = true) as -> by exact Hbatch.
  unfold _add_to_batch. cbn [pending_batches set_compression_service
    batch_config set_pending_batches]. fold pending.
  destruct (decide (max_batch_size (batch_config self)
                    ≤ Z.of_nat (length pending))) as [Hfull|Hroom];
    [|done].
  unfold _flush_batch.
  cbn [pending_batches set_pending_batches]. rewrite lookup_insert_eq.
  assert (pending ≠ []) as Hne by (subst pending; by destruct (default _ _)).
  destruct pending as [|u0 pending'] eqn:Hp; [done|]. rewrite <-Hp.
  destruct (capability _ c supports_compression && _).
  - destruct (packed_batch pending) as [text sizes]. simpl.
    split; [done|]. eexists. split; [done|]. right. eauto.
  - simpl. split; [done|]. eexists. split; [done|]. by left.
Qed.

(** A client without batch support: its pending batches stay, and the
    update is emitted to it at once, compressed or not. *)
Lemma send_update_immediate now self c symbol data force :
  capability self c supports_batch_updates = false →
  let enc := encode_for_client now self c symbol data force in
  let r := _send_update_to_client now self c symbol data force in
  pending_batches r = pending_batches self ∧
  (capability self c supports_compression = false →
     r = socket_emit (set_compression_service self enc.2) "optimized_update" c
           (StockUpdateOptimized enc.1 now)) ∧
  ∃ msg, socketio (websocket_manager r)
         = (socketio (websocket_manager self)
            ++ [{| em_event := "optimized_update"; em_room := c;
                   em_message := msg |}])%list ∧
         (msg = StockUpdateOptimized enc.1 now ∨
          ∃ text, msg = StockUpdateCompressed text now).
Proof.
  intros Hbatch enc r. subst r.
  unfold Broadcaster._send_update_to_client. fold enc.
  destruct enc as [u cs] eqn:Henc.
  assert (capability (set_compression_service self cs) c supports_batch_updates
          = false) as -> by exact Hbatch.
  assert (capability (set_compression_service self cs) c supports_compression
          = capability self c supports_compression) as -> by done.
  unfold _send_single_update. simpl.
  destruct (capability self c supports_compression) eqn:Hcomp; simpl.
  - destruct (enable_compression (batch_config self)); simpl.
    + destruct (json_len (StockUpdateOptimized u now)) as [size|].
      * destruct (decide (compression_threshold (batch_config self) < size)).
        -- destruct (packed_update u) as [text sizes]. simpl.
           split_and!; [done..|]. eexists. split; [done|]. right. eauto.
        -- simpl. split_and!; [done..|]. eexists. split; [done|]. by left.
      * simpl. split_and!; [done..|]. eexists. split; [done|]. by left.
    + split_and!; [done..|]. eexists. split; [done|]. by left.
  - split_and!; [done..|]. eexists. split; [done|]. by left.
Qed.

Lemma send_step_connected now symbol data force self c :
  c ∈ connected_clients (websocket_manager self) →
  send_step now symbol data force self c
  = _send_update_to_client now self c symbol data force.
Proof.
  intros Hc. unfold Broadcaster.send_step. by rewrite decide_True.
Qed.

(** Two subscribers of a symbol, the first with delta and batch support
    and the second with none, and one update: the first gets one
    delta-encoded update in its pending batch, the second one full
    update, emitted at once. *)
Lemma two_subscribers_one_update now self c1 c2 symbol data
    (order : list string) :
  c1 ≠ c2 →
  c1 ∈ connected_clients (websocket_manager self) →
  c2 ∈ connected_clients (websocket_manager self) →
  symbol ∈ dom (symbol_subscribers (websocket_manager self)) →
  order ≡ₚ [c1; c2] →
  capability self c1 supports_delta_updates = true →
  capability self c1 supports_batch_updates = true →
  capability self c2 supports_delta_updates = false →
  capability self c2 supports_batch_updates = false →
  capability self c2 supports_compression = false →
  pending_batches self !! c1 = None →
  1 < max_batch_size (batch_config self) →
  Py.wf (Codec.as_dict data) →
  let r := send_optimized_stock_update now self symbol data false order in
  ∃ u1 u2,
    pending_batches r !! c1 = Some [u1] ∧
    Codec.u_type u1 ≠ "full" ∧ Codec.u_data u1 = None ∧
    (order = [c1; c2] →
       u1 = (Codec.create_delta_update now (compression_service self)
               symbol data).1) ∧
    (order = [c2; c1] → Codec.u_type u1 = "heartbeat") ∧
    socketio (websocket_manager r)
    = (socketio (websocket_manager self)
       ++ [{| em_event := "optimized_update"; em_room := c2;
              em_message := StockUpdateOptimized u2 now |}])%list ∧
    Codec.u_type u2 = "full" ∧ Codec.u_data u2 = Some (Codec.as_dict data).
Proof.
  intros Hne Hc1 Hc2 Hsym Hperm Hd1 Hb1 Hd2 Hb2 Hz2 Hp1 Hmax Hwf r.
  symmetry in Hperm. apply Permutation_length_2_inv in Hperm as [->| ->].
  - (* the client with delta support is served first *)
    pose proof (send_update_batched now self c1 symbol data false Hb1) as H1.
    cbn zeta in H1. rewrite Hp1 in H1. cbn [default app length] in H1.
    rewrite decide_False in H1 by lia.
    destruct (proj1 (encode_choice now self c1 symbol data false))
      as [Henc1 Hty1]; [done|].
    set (self1 := set_pending_batches _ _) in H1.
    destruct (send_update_immediate now self1 c2 symbol data false Hb2)
      as (_ & Hr & _).
    specialize (Hr Hz2).
    destruct (proj2 (encode_choice now self1 c2 symbol data false))
      as [Henc2 Hty2]; [by left|].
    assert (Hrun : r = socket_emit
                         (set_compression_service self1
                            (encode_for_client now self1 c2 symbol data false).2)
                         "optimized_update" c2
                         (StockUpdateOptimized
                            (encode_for_client now self1 c2 symbol data false).1
                            now)).
    { subst r. unfold Broadcaster.send_optimized_stock_update.
      rewrite (decide_True (P := symbol ∈ _)) by done. cbn [foldl].
      rewrite (send_step_connected _ _ _ _ self c1), H1 by done.
      rewrite (send_step_connected _ _ _ _ self1 c2) by exact Hc2.
      exact Hr. }
    rewrite Hrun. eexists _, _. split_and!.
    + simpl. by rewrite lookup_insert_eq.
    + done.
    + rewrite Henc1. apply delta_update_type.
    + intros _. by rewrite Henc1.
    + intros [= ??]. congruence.
    + done.
    + done.
    + by rewrite Henc2.
  - (* the client without any support is served first *)
    destruct (send_update_immediate now self c2 symbol data false Hb2)
      as (_ & Hr & _).
    specialize (Hr Hz2).
    destruct (proj2 (encode_choice now self c2 symbol data false))
      as [Henc2 Hty2]; [by left|].
    set (self1 := socket_emit _ _ _ _) in Hr.
    pose proof (send_update_batched now self1 c1 symbol data false Hb1) as H1.
    cbn zeta in H1.
    assert (pending_batches self1 !! c1 = None) as Hp1' by exact Hp1.
    rewrite Hp1' in H1. cbn [default app length] in H1.
    rewrite decide_False in H1 by (unfold self1; simpl; lia).
    destruct (proj1 (encode_choice now self1 c1 symbol data false))
      as [Henc1 Hty1]; [done|].
    assert (Hrun : r = set_pending_batches
                         (set_compression_service self1
                            (encode_for_client now self1 c1 symbol data false).2)
                         (<[c1 := [(encode_for_client now self1 c1 symbol data
                                      false).1]]> (pending_batches self1))).
    { subst r. unfold Broadcaster.send_optimized_stock_update.
      rewrite (decide_True (P := symbol ∈ _)) by done. cbn [foldl].
      rewrite (send_step_connected _ _ _ _ self c2), Hr by done.
      rewrite (send_step_connected _ _ _ _ self1 c1) by exact Hc1.
      exact H1. }
    rewrite Hrun. eexists _, _. split_and!.
    + simpl. by rewrite lookup_insert_eq.
    + done.
    + rewrite Henc1. apply delta_update_type.
    + intros [= ??]. congruence.
    + intros _. rewrite Henc1. unfold self1. simpl. rewrite Henc2.
      by apply delta_after_full.
    + done.
    + done.
    + by rewrite Henc2.
Qed.


End BroadcasterFacts.



(* ===================================================================== *)
(** * Cache integration *)
(* ===================================================================== *)

Section CacheIntegrationFacts.
Import Exn CacheIntegration.
Context {W quote_data : Type}.
Context (clock : W → Z)
        (getQuote : string → W → outcome (option quote_data) * W)
        (make_quote : string → quote_data → Z → outcome Quote.StockQuote)
        (random : W → Qc * W)
        (sleep : Qc → W → W)
        (store_get : string → W → option Quote.StockQuote * W)
        (store_set : string → Quote.StockQuote → Z → W → bool * W)
        (store_publish : string → Quote.StockQuote → W → W).

Local Abbreviation fetch_batch_quotes :=
  (CacheIntegration.fetch_batch_quotes clock getQuote make_quote random sleep).
Local Abbreviation get_stock_data :=
  (CacheIntegration.get_stock_data clock getQuote make_quote random sleep
     store_get store_set store_publish).
Local Abbreviation cache_refresh_stock_data :=
  (CacheIntegration.cache_refresh_stock_data store_set store_publish).
Local Abbreviation after_miss := (CacheIntegration.after_miss store_get).


End CacheIntegrationFacts.

